(** * Grid search over exponential-smoothing configurations with
      walk-forward validation

    A shallow embedding of the model-selection engine of the notebook
    [py-timeseries-ets-california-female-births.ipynb] (cell "Task 4. Fit
    and Evaluate Models"): [train_test_split], [measure_rmse],
    [exp_smoothing_forecast], [walk_forward_validation], [score_model],
    [grid_search] and [exp_smoothing_configs].

    Python lists are objects of a store, addressed by location, so that
    aliasing and in-place updates ([list.append]) are visible; exceptions
    are an explicit outcome; numbers are IEEE binary64 floats, as Python's
    [float] and numpy's [float64] are. *)

From Stdlib Require Import String Ascii DecimalString.
From Stdlib Require DecimalZ DecimalFacts.
From Stdlib Require Import Floats Uint63.
From Stdlib Require Import ZArith Lia Bool PeanoNat.
From Stdlib Require Import List Sorted Permutation.
Import ListNotations.
Open Scope string_scope.
Open Scope list_scope.
Open Scope nat_scope.

(* ===================================================================== *)
(** * 1. The Python run-time model                                        *)
(* ===================================================================== *)

(** ** Exceptions and outcomes *)

(** A Python exception, identified by the name of its class. *)
Inductive exn : Type :=
| PyExc (cls : string).

Definition ValueError : exn := PyExc "ValueError".
Definition TypeError : exn := PyExc "TypeError".
Definition IndexError : exn := PyExc "IndexError".
Definition AttributeError : exn := PyExc "AttributeError".
Definition OverflowError : exn := PyExc "OverflowError".

(** The outcome of a call: a value, or a raised exception. *)
Inductive result (A : Type) : Type :=
| Ok (a : A)
| Raise (e : exn).

Arguments Ok {A} a.
Arguments Raise {A} e.

Definition is_raise {A : Type} (r : result A) : bool :=
  match r with
  | Ok _ => false
  | Raise _ => true
  end.

(** ** Configurations *)

(** The values ['add'] and ['mul'] of a trend or seasonal component;
    Python's [None] is Rocq's [None]. *)
Inductive component : Type :=
| Add
| Mul.

(** A candidate configuration: the six-element list [[t,d,s,p,b,r]]. *)
Record config : Type := Config {
  cfg_t : option component;   (* trend *)
  cfg_d : bool;               (* damped *)
  cfg_s : option component;   (* seasonal *)
  cfg_p : option Z;           (* seasonal_periods *)
  cfg_b : bool;               (* use_boxcox *)
  cfg_r : bool                (* remove_bias *)
}.

(** ** The store *)

Definition loc : Type := nat.

(** The list objects the program handles: sequences of numbers (the data,
    the history, the predictions) and sequences of configurations. *)
Inductive pyobj : Type :=
| FloatSeq (xs : list float)
| ConfigSeq (cs : list config).

(** A progress line [' > Model[%s] RMSE: %.3f' % (key, result)], recorded
    by the two values that determine it. *)
Definition line : Type := (string * float)%type.

Record world : Type := World {
  heap : list pyobj;
  stdout : list line
}.

(** Computations: they read and update the world and may raise; the world
    reached when an exception is raised is kept, as a handler sees it. *)
Definition M (A : Type) : Type := world -> result A * world.

Definition ret {A : Type} (a : A) : M A :=
  fun w => (Ok a, w).

Definition raise {A : Type} (e : exn) : M A :=
  fun w => (Raise e, w).

Definition bind {A B : Type} (m : M A) (f : A -> M B) : M B :=
  fun w =>
    match m w with
    | (Ok a, w') => f a w'
    | (Raise e, w') => (Raise e, w')
    end.

Definition lift {A : Type} (r : result A) : M A :=
  fun w => (r, w).

Declare Scope py_scope.
Delimit Scope py_scope with py.
Notation "x <- m ;; k" := (bind m (fun x => k))
  (at level 61, m at next level, right associativity) : py_scope.
Notation "' pat <- m ;; k" := (bind m (fun x => match x with pat => k end))
  (at level 61, pat pattern, m at next level, right associativity) : py_scope.
Notation "m ;; k" := (bind m (fun _ => k))
  (at level 61, right associativity) : py_scope.
Open Scope py_scope.

(** [try: body except: handler] with a bare [except], which catches
    every exception. *)
Definition try_except {A : Type} (body : M A) (handler : exn -> M A) : M A :=
  fun w =>
    match body w with
    | (Ok a, w') => (Ok a, w')
    | (Raise e, w') => handler e w'
    end.

(** [for x in xs: body x] over an immutable sequence of values. *)
Fixpoint for_each {A : Type} (xs : list A) (body : A -> M unit) : M unit :=
  match xs with
  | [] => ret tt
  | x :: xs' => body x ;; for_each xs' body
  end.

(** [range(n)]. *)
Definition range (n : nat) : list nat := seq 0 n.

(** The list comprehension [[f(x) for x in xs]] with an effectful [f]. *)
Fixpoint list_comp {A B : Type} (f : A -> M B) (xs : list A) : M (list B) :=
  match xs with
  | [] => ret []
  | x :: xs' => y <- f x ;; ys <- list_comp f xs' ;; ret (y :: ys)
  end.

(** ** List objects *)

Fixpoint store {A : Type} (i : nat) (x : A) (l : list A) : list A :=
  match l, i with
  | [], _ => []
  | _ :: l', O => x :: l'
  | y :: l', S i' => y :: store i' x l'
  end.

(** A new list object holding [xs]: [list()] for [[]], and the
    comprehension [[x for x in xs]]. *)
Definition new_list (xs : list float) : M loc :=
  fun w => (Ok (length (heap w)),
            World (heap w ++ [FloatSeq xs]) (stdout w)).

Definition new_config_list (cs : list config) : M loc :=
  fun w => (Ok (length (heap w)),
            World (heap w ++ [ConfigSeq cs]) (stdout w)).

(** Reading a sequence of numbers through a reference. *)
Definition read_floats (l : loc) : M (list float) :=
  fun w =>
    match nth_error (heap w) l with
    | Some (FloatSeq xs) => (Ok xs, w)
    | _ => (Raise TypeError, w)
    end.

Definition read_configs (l : loc) : M (list config) :=
  fun w =>
    match nth_error (heap w) l with
    | Some (ConfigSeq cs) => (Ok cs, w)
    | _ => (Raise TypeError, w)
    end.

(** [l.append(x)]: the object at [l] is updated in place. *)
Definition list_append (l : loc) (x : float) : M unit :=
  fun w =>
    match nth_error (heap w) l with
    | Some (FloatSeq xs) =>
        (Ok tt, World (store l (FloatSeq (xs ++ [x])) (heap w)) (stdout w))
    | _ => (Raise AttributeError, w)
    end.

Definition config_list_append (l : loc) (c : config) : M unit :=
  fun w =>
    match nth_error (heap w) l with
    | Some (ConfigSeq cs) =>
        (Ok tt, World (store l (ConfigSeq (cs ++ [c])) (heap w)) (stdout w))
    | _ => (Raise AttributeError, w)
    end.

(** [xs[i]] for [0 <= i]. *)
Definition index {A : Type} (xs : list A) (i : nat) : M A :=
  match nth_error xs i with
  | Some x => ret x
  | None => raise IndexError
  end.

(** [print(...)] of a progress line. *)
Definition print (ln : line) : M unit :=
  fun w => (Ok tt, World (heap w) (stdout w ++ [ln])).

(** ** Slices *)

(** A slice bound [i] of a sequence of length [len]: a negative bound
    counts from the end, and the outcome is clamped to [0 .. len]. *)
Definition slice_index (len : nat) (i : Z) : nat :=
  if (i <? 0)%Z then Z.to_nat (Z.max 0 (Z.of_nat len + i))
  else Z.to_nat (Z.min i (Z.of_nat len)).

(** [xs[:stop]] *)
Definition slice_to {A : Type} (xs : list A) (stop : Z) : list A :=
  firstn (slice_index (length xs) stop) xs.

(** [xs[start:]] *)
Definition slice_from {A : Type} (xs : list A) (start : Z) : list A :=
  skipn (slice_index (length xs) start) xs.

(** ** [str] of a configuration *)

Definition repr_component (c : option component) : string :=
  match c with
  | Some Add => "'add'"
  | Some Mul => "'mul'"
  | None => "None"
  end.

Definition repr_bool (b : bool) : string :=
  if b then "True" else "False".

Definition repr_int (p : option Z) : string :=
  match p with
  | Some z => NilZero.string_of_int (Z.to_int z)
  | None => "None"
  end.

(** [str(cfg)] for the list [cfg = [t,d,s,p,b,r]]. *)
Definition str (cfg : config) : string :=
  ("[" ++ repr_component (cfg_t cfg) ++ ", " ++ repr_bool (cfg_d cfg) ++ ", "
       ++ repr_component (cfg_s cfg) ++ ", " ++ repr_int (cfg_p cfg) ++ ", "
       ++ repr_bool (cfg_b cfg) ++ ", " ++ repr_bool (cfg_r cfg) ++ "]")%string.

(* ===================================================================== *)
(** * 2. Library functions the program calls                              *)
(* ===================================================================== *)

(** ** [math.sqrt] *)

(** [math.sqrt(x)]: a negative argument (minus infinity included) raises
    [ValueError: math domain error]; a NaN is returned as it is. *)
Definition math_sqrt (x : float) : result float :=
  if (x <? 0)%float then Raise ValueError else Ok (PrimFloat.sqrt x).

(** ** [sklearn.metrics.mean_squared_error] *)

(** The number of items of a sequence as a float. A sequence holds fewer
    than [2^63] items ([Py_ssize_t]); the conversion of such a count is the
    correctly rounded one. *)
Definition float_of_len (n : nat) : float :=
  PrimFloat.of_uint63 (Uint63.of_Z (Z.of_nat n)).

Fixpoint squared_errors (y_true y_pred : list float) : list float :=
  match y_true, y_pred with
  | a :: y_true', p :: y_pred' =>
      ((a - p) * (a - p))%float :: squared_errors y_true' y_pred'
  | _, _ => []
  end.

(** ** [numpy]'s sum of an array of doubles *)

(** [np.sum], which [np.average] uses on the squared errors, is
    [np.add.reduce]: the result starts from [0.0]; the items reach the
    inner loop of the reduction in chunks of the buffer size (8192
    items), in order; the loop adds to the result the sum of a chunk,
    which [DOUBLE_pairwise_sum] computes with the grouping defined
    here. *)

(** The eight accumulators [r[0] .. r[7]] of a block. *)
Definition accumulators : Type :=
  (float * float * float * float * float * float * float * float)%type.

(** [for (i = 8; i < n - (n % 8); i += 8) { r[0] += a[i+0]; ...;
    r[7] += a[i+7]; }]: every whole group of eight items is added to the
    accumulators; the items left, fewer than eight, are returned with
    them. *)
Fixpoint pairwise_accumulate (r : accumulators) (a : list float)
  : accumulators * list float :=
  match a with
  | a0 :: a1 :: a2 :: a3 :: a4 :: a5 :: a6 :: a7 :: a' =>
      let '(r0, r1, r2, r3, r4, r5, r6, r7) := r in
      pairwise_accumulate
        (r0 + a0, r1 + a1, r2 + a2, r3 + a3,
         r4 + a4, r5 + a5, r6 + a6, r7 + a7)%float a'
  | _ => (r, a)
  end.

(** The sum of at most [PW_BLOCKSIZE] items: fewer than eight are added
    one by one from [0.0]; otherwise the first eight seed the accumulators,
    the whole groups of eight that follow are added to them, the
    accumulators are added up in pairs, and the rest is added one by
    one. *)
Definition pairwise_block (a : list float) : float :=
  match a with
  | a0 :: a1 :: a2 :: a3 :: a4 :: a5 :: a6 :: a7 :: a' =>
      let '((r0, r1, r2, r3, r4, r5, r6, r7), rest) :=
        pairwise_accumulate (a0, a1, a2, a3, a4, a5, a6, a7) a' in
      let res := (((r0 + r1) + (r2 + r3)) + ((r4 + r5) + (r6 + r7)))%float in
      (* do non multiple of 8 rest *)
      fold_left PrimFloat.add rest res
  | _ =>
      (* n < 8 *)
      fold_left PrimFloat.add a 0%float
  end.

Definition PW_BLOCKSIZE : nat := 128.

(** [DOUBLE_pairwise_sum(a, n, stride)]: beyond [PW_BLOCKSIZE] items the
    array is cut in two, the first part of [n / 2] items rounded down to
    a multiple of eight, and the sums of the two parts are added.
    [depth] bounds the number of cuts: the length of [a] is enough (see
    [pairwise_sum_depth]). *)
Fixpoint pairwise_sum_upto (depth : nat) (a : list float) : float :=
  let n := length a in
  match depth with
  | O => pairwise_block a
  | S depth' =>
      if n <=? PW_BLOCKSIZE then pairwise_block a
      else
        (* divide by two but avoid non-multiples of unroll factor *)
        let n2 := n / 2 in
        let n2 := n2 - n2 mod 8 in
        (pairwise_sum_upto depth' (firstn n2 a)
         + pairwise_sum_upto depth' (skipn n2 a))%float
  end.

Definition pairwise_sum (a : list float) : float :=
  pairwise_sum_upto (length a) a.

(** The size of the buffer of a reduction, in items. *)
Definition NPY_BUFSIZE : nat := 64 * 128.

(** The chunks a sequence reaches the inner loop in: [m] chunks at most,
    each of [NPY_BUFSIZE] items but the last one. *)
Fixpoint chunks {A : Type} (m : nat) (l : list A) : list (list A) :=
  match m, l with
  | O, _ | _, [] => []
  | S m', _ => firstn NPY_BUFSIZE l :: chunks m' (skipn NPY_BUFSIZE l)
  end.

(** [np.sum] of a one-dimensional array of doubles. *)
Definition float_sum (xs : list float) : float :=
  fold_left (fun res chunk => (res + pairwise_sum chunk)%float)
            (chunks (length xs) xs) 0%float.

(** [mean_squared_error(y_true, y_pred)] on two one-dimensional
    sequences, with the default uniform weights. The library validates
    its input first ([check_consistent_length], then [check_array] with
    [force_all_finite] and at least one sample) and raises [ValueError]
    when the lengths differ, when an item is NaN or infinite, or when
    there is no item; it then averages [(y_true - y_pred) ** 2]. *)
Definition mean_squared_error (y_true y_pred : list float) : result float :=
  let n := length y_true in
  if negb (n =? length y_pred) then Raise ValueError
  else if negb (forallb is_finite y_true && forallb is_finite y_pred)
  then Raise ValueError
  else if n =? 0 then Raise ValueError
  else if (2 ^ 63 <=? Z.of_nat n)%Z then Raise OverflowError
  else Ok (float_sum (squared_errors y_true y_pred) / float_of_len n)%float.

(** ** [list.sort(key=...)] *)

(** The order of two sort keys: Python compares them with [<]. *)
Definition key_lt (a b : float) : bool := (a <? b)%float.

(** Insertion of [x] behind every item whose key is smaller than its own
    and before the first one whose key is not. *)
Fixpoint insert_by_key {A : Type} (key : A -> float) (x : A) (l : list A)
  : list A :=
  match l with
  | [] => [x]
  | y :: l' =>
      if key_lt (key y) (key x) then y :: insert_by_key key x l'
      else x :: y :: l'
  end.

(** A stable sort by key that uses [<] only. [list.sort] is such a sort
    (its algorithm differs, its outcome on keys that [<] orders totally
    does not: see [stable_sort_unique]). *)
Fixpoint sort_by_key {A : Type} (key : A -> float) (l : list A) : list A :=
  match l with
  | [] => []
  | x :: l' => insert_by_key key x (sort_by_key key l')
  end.

Definition is_some {A : Type} (o : option A) : bool :=
  match o with
  | Some _ => true
  | None => false
  end.

(** The key of a score tuple whose second item is a number. *)
Definition float_key {A : Type} (key : A -> option float) (x : A) : float :=
  match key x with
  | Some k => k
  | None => PrimFloat.nan
  end.

(** [l.sort(key=key)] where a key is a float or [None]. [None] supports
    no [<]: as soon as the sort compares anything (two items or more), a
    [None] key raises [TypeError]. *)
Definition list_sort {A : Type} (key : A -> option float) (l : list A)
  : result (list A) :=
  if (2 <=? length l) && negb (forallb (fun x => is_some (key x)) l)
  then Raise TypeError
  else Ok (sort_by_key (float_key key) l).

(* ===================================================================== *)
(** * 3. The program                                                      *)
(* ===================================================================== *)

(** [measure_rmse(actual, predicted)]: root mean squared error.
    [actual] is a slice, [predicted] the list object of the predictions. *)
Definition measure_rmse (actual : list float) (predicted : loc) : M float :=
  predicted <- read_floats predicted ;;
  mse <- lift (mean_squared_error actual predicted) ;;
  lift (math_sqrt mse).

(** [train_test_split(data, n_test)]: [data[:-n_test], data[-n_test:]].
    The two slices are read from the object [data] refers to; nothing is
    ever written through them, so they are kept as values. *)
Definition train_test_split (data : loc) (n_test : Z)
  : M (list float * list float) :=
  data <- read_floats data ;;
  ret (slice_to data (- n_test), slice_from data (- n_test)).

(** A score tuple [(key, result)]; [result] is [None] on failure. *)
Definition score : Type := (string * option float)%type.

(** The statsmodels pipeline
    [ExponentialSmoothing(endog, trend=t, damped=d, seasonal=s,
    seasonal_periods=p).fit(optimized=True, use_boxcox=b,
    remove_bias=r).predict(start, end)], as a function of [endog], [t],
    [d], [s], [p], [b], [r], [start] and [end]: its outcome is the array
    of predictions, or the exception the fit raises. It is a function of
    its arguments (the optimizer is deterministic), and it is not part of
    the program: the program is modelled for any such function. *)
Definition ets_model : Type :=
  list float -> option component -> bool -> option component ->
  option Z -> bool -> bool -> nat -> nat -> result (list float).

Section Engine.

Variable ExponentialSmoothing : ets_model.

(** One-step forecast: [exp_smoothing_forecast(history, config)]. *)
Definition exp_smoothing_forecast (history : loc) (config : config)
  : M float :=
  let '(Config t d s p b r) := config in
  (* history = np.array(history): a copy of the items *)
  history <- read_floats history ;;
  yhat <- lift (ExponentialSmoothing history t d s p b r
                  (length history) (length history)) ;;
  index yhat 0.

(** The body of the loop of [walk_forward_validation]. *)
Definition walk_forward_step (history predictions : loc)
    (test : list float) (cfg : config) (i : nat) : M unit :=
  (* fit model and make forecast for history *)
  yhat <- exp_smoothing_forecast history cfg ;;
  (* store forecast in list of predictions *)
  list_append predictions yhat ;;
  (* add actual observation to history for the next loop *)
  x <- index test i ;;
  list_append history x.

(** [walk_forward_validation(data, n_test, cfg)]. *)
Definition walk_forward_validation (data : loc) (n_test : Z) (cfg : config)
  : M float :=
  predictions <- new_list [] ;;
  ' (train, test) <- train_test_split data n_test ;;
  (* seed history with training dataset *)
  history <- new_list train ;;
  for_each (range (length test))
           (walk_forward_step history predictions test cfg) ;;
  error <- measure_rmse test predictions ;;
  ret error.

(** The run of [walk_forward_validation] up to the start of step [k] of
    its loop: the references to the history and to the predictions, and
    the test partition, as they are then. *)
Definition walk_forward_prefix (data : loc) (n_test : Z) (cfg : config)
    (k : nat) : M (loc * loc * list float) :=
  predictions <- new_list [] ;;
  ' (train, test) <- train_test_split data n_test ;;
  history <- new_list train ;;
  for_each (range k) (walk_forward_step history predictions test cfg) ;;
  ret (history, predictions, test).

(** [score_model(data, n_test, cfg, debug=False)]. Warnings are not
    modelled: [catch_warnings] and [filterwarnings] change no result. *)
Definition score_model (data : loc) (n_test : Z) (cfg : config)
    (debug : bool) : M score :=
  let key := str cfg in
  result <-
    (if debug
     then r <- walk_forward_validation data n_test cfg ;; ret (Some r)
     else try_except
            (r <- walk_forward_validation data n_test cfg ;; ret (Some r))
            (* except: error = None; result keeps its initial None *)
            (fun _ => ret None)) ;;
  match result with
  | Some r => print (key, r)
  | None => ret tt
  end ;;
  ret (key, result).

(** ** [joblib.Parallel] with the multiprocessing backend *)

(** A worker process runs the tasks it takes one after the other, in a
    memory of its own. *)
Fixpoint run_batch {A : Type} (tasks : list (M A)) (batch : list nat)
    (w : world) : list (nat * result A) * world :=
  match batch with
  | [] => ([], w)
  | i :: batch' =>
      match nth_error tasks i with
      | None => run_batch tasks batch' w
      | Some task =>
          let (r, w1) := task w in
          let (rs, w2) := run_batch tasks batch' w1 in
          ((i, r) :: rs, w2)
      end
  end.

Fixpoint lookup_outcome {A : Type} (i : nat) (outs : list (nat * result A))
  : option (result A) :=
  match outs with
  | [] => None
  | (j, r) :: outs' => if i =? j then Some r else lookup_outcome i outs'
  end.

(** The parent retrieves the outcomes in the order of the tasks; the
    first exception it meets is raised again. *)
Fixpoint gather {A : Type} (rs : list (result A)) : result (list A) :=
  match rs with
  | [] => Ok []
  | Raise e :: _ => Raise e
  | Ok a :: rs' =>
      match gather rs' with
      | Ok l => Ok (a :: l)
      | Raise e => Raise e
      end
  end.

(** [Parallel(n_jobs=cpu_count(), backend='multiprocessing')(tasks)].
    [sched] is the scheduling the program has no hold on: one batch of
    task numbers per worker, in the order the worker runs them; tasks no
    batch names are run by a last worker. Every worker starts from a
    copy of the parent's memory; the parent's own objects are out of its
    reach. The outcome lists the results in the order of the tasks.
    The lines the workers print reach the console worker by worker
    (how they interleave is not modelled). *)
Definition Parallel {A : Type} (sched : list (list nat)) (tasks : list (M A))
  : M (list A) :=
  fun w =>
    let n := length tasks in
    let claimed := concat sched in
    let rest := filter (fun i => negb (existsb (Nat.eqb i) claimed))
                       (seq 0 n) in
    let runs := map (fun batch => run_batch tasks batch (World (heap w) []))
                    (sched ++ [rest]) in
    let outs := flat_map fst runs in
    let console := flat_map (fun run => stdout (snd run)) runs in
    let results :=
      map (fun i => match lookup_outcome i outs with
                    | Some r => r
                    | None => Raise (PyExc "RuntimeError")
                    end) (seq 0 n) in
    (gather results, World (heap w) (stdout w ++ console)).

(** [grid_search(data, cfg_list, n_test, parallel=True)]. The candidates
    are read from the object [cfg_list] refers to when the iteration
    starts. *)
Definition grid_search (data cfg_list : loc) (n_test : Z) (parallel : bool)
    (sched : list (list nat)) : M (list score) :=
  cfg_list <- read_configs cfg_list ;;
  scores <-
    (if parallel
     then (* execute configs in parallel *)
       Parallel sched
         (map (fun cfg => score_model data n_test cfg false) cfg_list)
     else
       list_comp (fun cfg => score_model data n_test cfg false) cfg_list) ;;
  (* remove empty results *)
  let scores := filter (fun r => is_some (snd r)) scores in
  (* sort configs by error, asc *)
  scores <- lift (list_sort (@snd string (option float)) scores) ;;
  ret scores.

End Engine.

(** [exp_smoothing_configs(seasonal=[None])]. The list [models] is a new
    object; [seasonal] is only iterated. *)
Definition exp_smoothing_configs (seasonal : list (option Z)) : M loc :=
  models <- new_config_list [] ;;
  (* define config lists *)
  let t_params := [Some Add; Some Mul; None] in
  let d_params := [true; false] in
  let s_params := [Some Add; Some Mul; None] in
  let p_params := seasonal in
  let b_params := [true; false] in
  let r_params := [true; false] in
  (* create config instances *)
  for_each t_params (fun t =>
    for_each d_params (fun d =>
      for_each s_params (fun s =>
        for_each p_params (fun p =>
          for_each b_params (fun b =>
            for_each r_params (fun r =>
              let cfg := Config t d s p b r in
              config_list_append models cfg)))))) ;;
  ret models.

(** The default value of [seasonal]. *)
Definition default_seasonal : list (option Z) := [None].

(** ** The listing of the best models *)

(** [scores[:3]], the scores the notebook lists as the top three models
    ([for cfg, error in scores[:3]: print(cfg, error)]). *)
Definition top_three (scores : list score) : list score :=
  slice_to scores 3.

(** ** The notification e-mail *)

Definition NameError : exn := PyExc "NameError".

(** The environment of the process: [os.environ.get(name)] is the value of
    the variable, or [None]. *)
Definition environ : Type := string -> option string.

Section Notification.

(** The [EmailMessage] objects. *)
Variable message : Type.

(** The calls the program makes to [smtplib]. *)
Inductive smtp_call : Type :=
| SmtpConnect (host : string) (port : Z)     (* smtplib.SMTP(host, port) *)
| SmtpStarttls                               (* server.starttls() *)
| SmtpLogin (user password : string)         (* server.login(user, password) *)
| SmtpSendMessage (msg : message)            (* server.send_message(msg) *)
| SmtpQuit.                                  (* server.quit() *)

(** The mail gateway and the network, which the program has no hold on:
    whether a call returns or raises, and what, after the calls made so
    far. *)
Definition smtp_server : Type := list smtp_call -> smtp_call -> result unit.

(** Computations that talk to the gateway: they extend the record of the
    calls attempted, and may raise. *)
Definition Mail (A : Type) : Type :=
  list smtp_call -> result A * list smtp_call.

Definition mail_bind {A B : Type} (m : Mail A) (f : A -> Mail B) : Mail B :=
  fun calls =>
    match m calls with
    | (Ok a, calls') => f a calls'
    | (Raise e, calls') => (Raise e, calls')
    end.

Variable os_environ : environ.

(** The outcome of
    [msg = EmailMessage(); msg.set_content(text); msg['Subject'] = subject;
    msg['From'] = sender; msg['To'] = receiver]: the message, or the
    exception the [email] package raises on a value it refuses. *)
Variable EmailMessage : string -> string -> string -> string -> result message.

Variable server : smtp_server.

(** One call to the gateway. *)
Definition smtp (c : smtp_call) : Mail unit :=
  fun calls => (server calls c, calls ++ [c]).

(** [sys.exit(msg)]. The notebook never imports [sys]: looking the name up
    raises [NameError], and [exit] is not reached. *)
Definition sys_exit {A : Type} (msg : string) : Mail A :=
  fun calls => (Raise NameError, calls).

(** [email_notify(msg_text)]. *)
Definition email_notify (msg_text : string) : Mail unit :=
  let sender := os_environ "MAIL_SENDER" in
  let receiver := os_environ "MAIL_RECEIVER" in
  let gateway := os_environ "SMTP_GATEWAY" in
  let smtpuser := os_environ "SMTP_USERNAME" in
  let password := os_environ "SMTP_PASSWORD" in
  match sender, receiver, gateway, smtpuser, password with
  | Some sender, Some receiver, Some gateway, Some smtpuser, Some password =>
      mail_bind
        (fun calls =>
           (EmailMessage msg_text
              "Notification from Python ARIMA Time Series Script"
              sender receiver, calls))
        (fun msg =>
           mail_bind (smtp (SmtpConnect gateway 587)) (fun _ =>
           mail_bind (smtp SmtpStarttls) (fun _ =>
           mail_bind (smtp (SmtpLogin smtpuser password)) (fun _ =>
           mail_bind (smtp (SmtpSendMessage msg)) (fun _ =>
           smtp SmtpQuit)))))
  | _, _, _, _, _ =>
      (* sender==None or receiver==None or ... *)
      sys_exit "Incomplete email setup info. Script Processing Aborted!!!"
  end.

End Notification.

Arguments SmtpConnect {message} host port.
Arguments SmtpStarttls {message}.
Arguments SmtpLogin {message} user password.
Arguments SmtpSendMessage {message} msg.
Arguments SmtpQuit {message}.
Arguments email_notify {message} os_environ EmailMessage server msg_text.


(* ===================================================================== *)
(** * 4. What the program computes, on values                             *)
(* ===================================================================== *)

(** The outcomes of the program as functions of the items of the data
    (no store): the lemmas of section 8 relate the program to them. *)

Section Trace.

Variable ExponentialSmoothing : ets_model.

(** The outcome of [exp_smoothing_forecast] on a history of items [xs]. *)
Definition forecast_of (xs : list float) (cfg : config) : result float :=
  let '(Config t d s p b r) := cfg in
  match ExponentialSmoothing xs t d s p b r (length xs) (length xs) with
  | Ok yhat =>
      match nth_error yhat 0 with
      | Some y => Ok y
      | None => Raise IndexError
      end
  | Raise e => Raise e
  end.

(** The loop of [walk_forward_validation] over the test items left,
    from the items [hist] of the history and [preds] of the predictions:
    how it ends, and the two lists then. *)
Fixpoint walk_forward_loop (test hist preds : list float) (cfg : config)
  : result unit * (list float * list float) :=
  match test with
  | [] => (Ok tt, (hist, preds))
  | x :: test' =>
      match forecast_of hist cfg with
      | Ok yhat => walk_forward_loop test' (hist ++ [x]) (preds ++ [yhat]) cfg
      | Raise e => (Raise e, (hist, preds))
      end
  end.

(** The outcome of [measure_rmse] on the items. *)
Definition rmse_of (actual predicted : list float) : result float :=
  match mean_squared_error actual predicted with
  | Ok mse => math_sqrt mse
  | Raise e => Raise e
  end.

(** The outcome of [walk_forward_validation] when [data] refers to the
    object [obj]. *)
Definition walk_forward_error (obj : pyobj) (n_test : Z) (cfg : config)
  : result float :=
  match obj with
  | FloatSeq series =>
      let train := slice_to series (- n_test) in
      let test := slice_from series (- n_test) in
      match walk_forward_loop test train [] cfg with
      | (Ok _, (_, preds)) => rmse_of test preds
      | (Raise e, _) => Raise e
      end
  | ConfigSeq _ => Raise TypeError
  end.

(** The score tuple of a candidate in a search ([debug] off). *)
Definition score_of (obj : pyobj) (n_test : Z) (cfg : config) : score :=
  (str cfg,
   match walk_forward_error obj n_test cfg with
   | Ok e => Some e
   | Raise _ => None
   end).

End Trace.

(** The domain of the trend and of the seasonal component. *)
Definition component_domain : list (option component) :=
  [Some Add; Some Mul; None].

(** The domain of a flag. *)
Definition flag_domain : list bool := [true; false].

(** The Cartesian product of the six domains, in the nested order of the
    loops of [exp_smoothing_configs]. *)
Definition config_grid (seasonal : list (option Z)) : list config :=
  flat_map (fun t =>
    flat_map (fun d =>
      flat_map (fun s =>
        flat_map (fun p =>
          flat_map (fun b =>
            flat_map (fun r => [Config t d s p b r]) flag_domain)
          flag_domain)
        seasonal)
      component_domain)
    flag_domain)
  component_domain.

(* ===================================================================== *)
(** * 5. Sample inputs                                                    *)
(* ===================================================================== *)

(** Two stand-ins for the statsmodels pipeline, used to run the program
    on concrete inputs. *)

(** The forecast is the last observation; an empty history cannot be
    fitted. *)
Definition last_value_model : ets_model :=
  fun endog _ _ _ _ _ _ _ _ =>
    match rev endog with
    | [] => Raise ValueError
    | x :: _ => Ok [x]
    end.

(** A fit that fails on every input. *)
Definition unstable_model : ets_model :=
  fun _ _ _ _ _ _ _ _ _ => Raise (PyExc "ConvergenceError").

(** A fit that fails for a multiplicative trend and forecasts the last
    observation otherwise. *)
Definition picky_model : ets_model :=
  fun endog t d s p b r n m =>
    match t with
    | Some Mul => Raise ValueError
    | _ => last_value_model endog t d s p b r n m
    end.

Definition sample_series : list float := [1; 2; 4; 7; 11]%float.

Definition sample_configs : list config :=
  [ Config (Some Add) true None None false true;
    Config (Some Mul) false None None true true;
    Config None false None None false false ].

(** A store with the data at location [0] and the candidates at [1]. *)
Definition sample_world : world :=
  World [FloatSeq sample_series; ConfigSeq sample_configs] [].

(** ** More sample inputs *)

(** A series that never moves, on which the last value is a perfect
    forecast. *)
Definition flat_series : list float := [3; 3; 3; 3]%float.

Definition flat_world : world :=
  World [FloatSeq flat_series; ConfigSeq sample_configs] [].

(** A series with a missing value among its last items. *)
Definition gappy_series : list float := [1; 2; PrimFloat.nan; 4]%float.

Definition gappy_world : world :=
  World [FloatSeq gappy_series; ConfigSeq sample_configs] [].

(** A fit whose forecast is not a number. *)
Definition nan_model : ets_model :=
  fun _ _ _ _ _ _ _ _ _ => Ok [PrimFloat.nan].

(** Two settings of the environment: nothing set, and all five
    variables set. *)
Definition no_mail_setup : environ := fun _ => None.

Definition mail_setup : environ :=
  fun name =>
    if (name =? "MAIL_SENDER")%string then Some "births@example.org"
    else if (name =? "MAIL_RECEIVER")%string then Some "analyst@example.org"
    else if (name =? "SMTP_GATEWAY")%string then Some "smtp.example.org"
    else if (name =? "SMTP_USERNAME")%string then Some "births"
    else if (name =? "SMTP_PASSWORD")%string then Some "secret"
    else None.

(** A message as the four texts it is made of. *)
Definition plain_message : string -> string -> string -> string ->
    result (string * string * string * string) :=
  fun text subject sender receiver => Ok (text, subject, sender, receiver).

(** A gateway that refuses every login. *)
Definition strict_gateway {message : Type} : smtp_server message :=
  fun _ c =>
    match c with
    | SmtpLogin _ _ => Raise (PyExc "SMTPAuthenticationError")
    | _ => Ok tt
    end.

(* ===================================================================== *)
(** * 6. Predicates used by the proofs                                     *)
(* ===================================================================== *)

(** The primitive floats are specified through [Prim2SF], their image in
    [spec_float]; the predicates below are on that image. *)

(** [x] is not a NaN and its sign bit is [s]. *)
Definition sf_signed (s : bool) (x : spec_float) : Prop :=
  match x with
  | S754_zero s' | S754_infinity s' | S754_finite s' _ _ => s' = s
  | S754_nan => False
  end.

(** [x] is not a NaN. *)
Definition sf_not_nan (x : spec_float) : Prop :=
  match x with S754_nan => False | _ => True end.

(** [x] is a zero or a finite non-zero number. *)
Definition sf_finite (x : spec_float) : Prop :=
  match x with S754_zero _ | S754_finite _ _ _ => True | _ => False end.

(** [x] is a zero of either sign, or positive (plus infinity included). *)
Definition sf_ge0 (x : spec_float) : Prop :=
  match x with
  | S754_zero _ => True
  | S754_infinity s | S754_finite s _ _ => s = false
  | S754_nan => False
  end.


(** ** Sort keys *)

(** The order of two items by their keys. *)
Definition key_le {A : Type} (key : A -> float) (a b : A) : Prop :=
  (key a <=? key b)%float = true.

(** The key of an item is a number. *)
Definition key_ok {A : Type} (key : A -> float) (a : A) : Prop :=
  is_nan (key a) = false.

(** The key of an item equals [k] (as floats compare: [0.0] and [-0.0]
    are equal). *)
Definition same_key {A : Type} (key : A -> float) (k : float) (a : A) : bool :=
  (key a =? k)%float.

(** The error of a score tuple, as the sort reads it. *)
Definition error_of (r : score) : float :=
  float_key (@snd string (option float)) r.

(** ** Keys and printed lines *)

(** A string without a comma. *)
Fixpoint no_comma (s : string) : bool :=
  match s with
  | EmptyString => true
  | String c s' => negb (Ascii.eqb c ",") && no_comma s'
  end.

(** [m] prints nothing. *)
Definition quiet {A : Type} (m : M A) : Prop :=
  forall w, stdout (snd (m w)) = stdout w.

(** The progress line of a score tuple: none when the error is [None]. *)
Definition score_line (r : score) : list line :=
  match snd r with
  | Some e => [(fst r, e)]
  | None => []
  end.

(** The line task number [i] prints, among the tasks of [cfgs]. *)
Definition task_line (ES : ets_model) (obj : pyobj) (n_test : Z)
    (cfgs : list config) (i : nat) : list line :=
  match nth_error cfgs i with
  | Some cfg => score_line (score_of ES obj n_test cfg)
  | None => []
  end.

(* ===================================================================== *)
(** * 7. Floating-point facts                                             *)
(* ===================================================================== *)

(** ** Rounding keeps the sign and makes no NaN *)

Lemma shr_1_nonneg mrs : (0 <= shr_m mrs)%Z -> (0 <= shr_m (shr_1 mrs))%Z.
Proof.
  destruct mrs as [m r s]; simpl.
  destruct m as [|p|p]; simpl; try lia; destruct p; simpl; lia.
Qed.

Lemma iter_pos_shr_1_nonneg p : forall mrs,
  (0 <= shr_m mrs)%Z -> (0 <= shr_m (SpecFloat.iter_pos shr_1 p mrs))%Z.
Proof.
  induction p; intros mrs H; simpl; auto using shr_1_nonneg.
Qed.

Lemma shr_nonneg mrs e n :
  (0 <= shr_m mrs)%Z -> (0 <= shr_m (fst (shr mrs e n)))%Z.
Proof.
  intros H. destruct n; simpl; auto using iter_pos_shr_1_nonneg.
Qed.

Lemma shr_record_of_loc_m m l : shr_m (shr_record_of_loc m l) = m.
Proof. destruct l as [|[]]; reflexivity. Qed.

Lemma shr_fexp_nonneg prec emax m e l :
  (0 <= m)%Z -> (0 <= shr_m (fst (shr_fexp prec emax m e l)))%Z.
Proof.
  intros H. unfold shr_fexp. apply shr_nonneg. now rewrite shr_record_of_loc_m.
Qed.

Lemma round_nearest_even_nonneg m l :
  (0 <= m)%Z -> (0 <= round_nearest_even m l)%Z.
Proof.
  intros H. destruct l as [|[]]; simpl; try lia. destruct (Z.even m); lia.
Qed.

Lemma binary_round_aux_signed prec emax s m e l :
  (0 <= m)%Z -> sf_signed s (binary_round_aux prec emax s m e l).
Proof.
  intros H. unfold binary_round_aux.
  pose proof (shr_fexp_nonneg prec emax m e l H) as H1.
  destruct (shr_fexp prec emax m e l) as [mrs' e'] eqn:E1. simpl in H1.
  pose proof (shr_fexp_nonneg prec emax
    (round_nearest_even (shr_m mrs') (loc_of_shr_record mrs')) e' loc_Exact
    (round_nearest_even_nonneg _ _ H1)) as H2.
  destruct (shr_fexp prec emax _ e' loc_Exact) as [mrs'' e''] eqn:E2. simpl in H2.
  destruct (shr_m mrs'') as [|p|p]; simpl; try lia; auto.
  destruct (e'' <=? emax - prec)%Z; simpl; auto.
Qed.

Lemma binary_round_signed prec emax s m e :
  sf_signed s (binary_round prec emax s m e).
Proof.
  unfold binary_round.
  destruct (shl_align m e _) as [mz ez].
  apply binary_round_aux_signed. lia.
Qed.

Lemma sf_signed_not_nan s x : sf_signed s x -> sf_not_nan x.
Proof. destruct x; simpl; auto. Qed.

Lemma binary_normalize_not_nan prec emax m e sz :
  sf_not_nan (binary_normalize prec emax m e sz).
Proof.
  destruct m; simpl; auto;
    eapply sf_signed_not_nan, binary_round_signed.
Qed.

Lemma binary_normalize_nonneg prec emax m e :
  (0 <= m)%Z -> sf_signed false (binary_normalize prec emax m e false).
Proof.
  destruct m; simpl; intros; try lia; auto using binary_round_signed.
Qed.

Lemma SFsub_not_nan prec emax x y :
  sf_finite x -> sf_finite y -> sf_not_nan (SFsub prec emax x y).
Proof.
  destruct x as [sx|sx| |sx mx ex], y as [sy|sy| |sy my ey];
    intros Hx Hy; simpl in Hx, Hy; try tauto; unfold SFsub; cbv zeta;
    first [ exact I
          | destruct sx, sy; exact I
          | apply binary_normalize_not_nan ].
Qed.

Lemma SFmul_self_nonneg prec emax x :
  sf_not_nan x -> sf_signed false (SFmul prec emax x x).
Proof.
  destruct x as [s|s| |s m e]; intros Hx; simpl in Hx; try tauto;
    unfold SFmul; rewrite xorb_nilpotent; try reflexivity.
  apply binary_round_aux_signed. lia.
Qed.

Lemma SFadd_nonneg prec emax x y :
  sf_signed false x -> sf_signed false y ->
  sf_signed false (SFadd prec emax x y).
Proof.
  destruct x as [sx|sx| |sx mx ex], y as [sy|sy| |sy my ey];
    intros Hx Hy; simpl in Hx, Hy; try tauto; subst;
    unfold SFadd; try reflexivity.
  cbv zeta. apply binary_normalize_nonneg. unfold cond_Zopp. lia.
Qed.

Lemma SFdiv_nonneg prec emax x m e :
  sf_signed false x ->
  sf_signed false (SFdiv prec emax x (S754_finite false m e)).
Proof.
  destruct x as [sx|sx| |sx mx ex]; intros Hx; simpl in Hx; try tauto; subst;
    unfold SFdiv; try reflexivity.
  unfold SFdiv_core_binary. cbv zeta.
  set (s := (ex - e - _)%Z).
  set (m' := match s with Z0 => Zpos mx | Zpos _ => Z.shiftl (Zpos mx) s | Zneg _ => 0%Z end).
  assert (Hm' : (0 <= m')%Z).
  { subst m'. destruct s; try lia. apply Z.shiftl_nonneg. lia. }
  pose proof (Z.div_eucl_eq m' (Zpos m) ltac:(lia)) as Heq.
  pose proof (Z.mod_pos_bound m' (Zpos m) ltac:(lia)) as Hr.
  unfold Z.modulo in Hr.
  destruct (Z.div_eucl m' (Zpos m)) as [q r].
  apply binary_round_aux_signed. nia.
Qed.

Lemma SFsqrt_ge0 prec emax x : sf_ge0 x -> sf_ge0 (SFsqrt prec emax x).
Proof.
  destruct x as [s|s| |s m e]; intros Hx; simpl in Hx; try tauto; subst;
    unfold SFsqrt; try exact I; try reflexivity.
  unfold SFsqrt_core_binary. cbv zeta.
  set (s := (e - _)%Z).
  set (m' := match s with Z0 => Zpos m | Zpos _ => Z.shiftl (Zpos m) s | Zneg _ => 0%Z end).
  assert (Hm' : (0 <= m')%Z).
  { subst m'. destruct s; try lia. apply Z.shiftl_nonneg. lia. }
  pose proof (Z.sqrtrem_sqrt m') as Hq.
  pose proof (Z.sqrt_nonneg m') as Hq'.
  destruct (Z.sqrtrem m') as [q r]. simpl in Hq. subst q.
  pose proof (binary_round_aux_signed prec emax false (Z.sqrt m')
    (Z.min (fexp prec emax (Z.div2 (Z.pos (digits2_pos m) + e + 1))) (Z.div2 e))
    (if (r =? 0)%Z then loc_Exact else loc_Inexact (if (r <=? Z.sqrt m')%Z then Lt else Gt)) Hq') as H.
  destruct (binary_round_aux _ _ _ _ _ _); simpl in *; auto.
Qed.
Lemma digits2_pos_size p : digits2_pos p = Pos.size p.
Proof. induction p; simpl; congruence. Qed.

Lemma Zdigits2_log2 m : (0 < m)%Z -> Zdigits2 m = (Z.log2 m + 1)%Z.
Proof.
  destruct m as [|p|p]; try lia. intros _.
  destruct p; cbn [Zdigits2 digits2_pos Z.log2];
    rewrite ?digits2_pos_size, ?Pos2Z.inj_succ; lia.
Qed.

Lemma Zdigits2_pos_iff m : (0 <= m)%Z -> (0 < Zdigits2 m)%Z <-> (0 < m)%Z.
Proof. destruct m; simpl; lia. Qed.

Lemma Zdigits2_shr_1 mrs :
  (0 <= shr_m mrs)%Z ->
  Zdigits2 (shr_m (shr_1 mrs)) = Z.max 0 (Zdigits2 (shr_m mrs) - 1).
Proof.
  destruct mrs as [m r s]; cbn [shr_m].
  destruct m as [|p|p]; try lia; intros _.
  - reflexivity.
  - destruct p; cbn [shr_1 shr_m Zdigits2 digits2_pos];
      rewrite ?Pos2Z.inj_succ; lia.
Qed.

Lemma Zdigits2_iter_shr_1 p : forall mrs,
  (0 <= shr_m mrs)%Z ->
  (0 <= shr_m (SpecFloat.iter_pos shr_1 p mrs))%Z /\
  Zdigits2 (shr_m (SpecFloat.iter_pos shr_1 p mrs))
  = Z.max 0 (Zdigits2 (shr_m mrs) - Zpos p).
Proof.
  induction p as [p IH|p IH|]; intros mrs H; simpl.
  - pose proof (shr_1_nonneg mrs H) as H1.
    pose proof (Zdigits2_shr_1 mrs H) as E1.
    destruct (IH _ H1) as [H2 E2]. destruct (IH _ H2) as [H3 E3].
    split; [exact H3|]. rewrite E3, E2, E1. lia.
  - destruct (IH _ H) as [H2 E2]. destruct (IH _ H2) as [H3 E3].
    split; [exact H3|]. rewrite E3, E2. lia.
  - split; [now apply shr_1_nonneg|]. now apply Zdigits2_shr_1.
Qed.

(** One rounding shift keeps a positive mantissa positive as long as the
    number is above the underflow threshold. *)
Lemma shr_fexp_pos m e l :
  (0 < m)%Z -> (SpecFloat.emin prec emax < Zdigits2 m + e)%Z ->
  let '(mrs, e') := shr_fexp prec emax m e l in
  (0 < shr_m mrs)%Z /\ (Zdigits2 (shr_m mrs) <= Zdigits2 m)%Z /\
  (e <= e')%Z /\ (e' = e \/ e' = fexp prec emax (Zdigits2 m + e))%Z.
Proof.
  intros Hm He. unfold shr_fexp, shr.
  set (n := (fexp prec emax (Zdigits2 m + e) - e)%Z).
  assert (Hn : (n < Zdigits2 m)%Z) by (subst n; unfold fexp, SpecFloat.emin, prec, emax in *; lia).
  destruct n as [|p|p] eqn:En; rewrite ?shr_record_of_loc_m.
  - repeat split; auto; lia.
  - destruct (Zdigits2_iter_shr_1 p (shr_record_of_loc m l)) as [H1 H2];
      rewrite ?shr_record_of_loc_m in *; try lia.
    split; [|split; [|split]].
    + apply Zdigits2_pos_iff; auto. rewrite H2. lia.
    + rewrite H2. lia.
    + lia.
    + right. lia.
  - repeat split; auto; lia.
Qed.

Lemma round_nearest_even_bounds m l :
  (0 < m)%Z ->
  (m <= round_nearest_even m l <= m + 1)%Z.
Proof.
  intros H. destruct l as [|[]]; simpl; try lia. destruct (Z.even m); lia.
Qed.

Lemma Zdigits2_succ_le m m' :
  (0 < m)%Z -> (m <= m' <= m + 1)%Z -> (Zdigits2 m' <= Zdigits2 m + 1)%Z.
Proof.
  intros H H'. rewrite !Zdigits2_log2 by lia.
  assert (Z.log2 m' <= Z.log2 (2 * m))%Z by (apply Z.log2_le_mono; lia).
  rewrite Z.log2_double in * by lia. lia.
Qed.

Lemma binary_round_aux_finite s m e l :
  (0 < m)%Z -> (Zdigits2 m <= 64)%Z -> (-1000 <= e <= 900)%Z ->
  exists m' e', binary_round_aux prec emax s m e l = S754_finite s m' e'.
Proof.
  intros Hm HD He. unfold binary_round_aux.
  assert (HD0 : (0 < Zdigits2 m)%Z) by (apply Zdigits2_pos_iff; lia).
  assert (Hu : (SpecFloat.emin prec emax < Zdigits2 m + e)%Z)
    by (unfold SpecFloat.emin, prec, emax; lia).
  pose proof (shr_fexp_pos m e l Hm Hu) as H1.
  destruct (shr_fexp prec emax m e l) as [mrs' e1] eqn:E1.
  destruct H1 as (Hm1 & HD1 & Hle1 & He1).
  set (m2 := round_nearest_even (shr_m mrs') (loc_of_shr_record mrs')).
  pose proof (round_nearest_even_bounds (shr_m mrs') (loc_of_shr_record mrs') Hm1) as Hb.
  fold m2 in Hb.
  pose proof (Zdigits2_succ_le (shr_m mrs') m2 Hm1 Hb) as HD2.
  assert (HD20 : (0 < Zdigits2 m2)%Z) by (apply Zdigits2_pos_iff; lia).
  assert (He1' : (-1000 <= e1 <= 911)%Z).
  { unfold fexp, SpecFloat.emin, prec, emax in He1. lia. }
  assert (Hu2 : (SpecFloat.emin prec emax < Zdigits2 m2 + e1)%Z)
    by (unfold SpecFloat.emin, prec, emax; lia).
  pose proof (shr_fexp_pos m2 e1 loc_Exact ltac:(lia) Hu2) as H2.
  destruct (shr_fexp prec emax m2 e1 loc_Exact) as [mrs'' e2] eqn:E2.
  destruct H2 as (Hm3 & HD3 & Hle2 & He2).
  destruct (shr_m mrs'') as [|p|p]; try lia.
  assert (Hle : (e2 <=? emax - prec)%Z = true).
  { apply Z.leb_le. unfold fexp, SpecFloat.emin, prec, emax in *. lia. }
  rewrite Hle. eauto.
Qed.

Lemma digits2_pos_iter_xO p k :
  Zpos (digits2_pos (Pos.iter xO p k)) = (Zpos (digits2_pos p) + Zpos k)%Z.
Proof.
  induction k using Pos.peano_ind.
  - simpl. lia.
  - rewrite Pos.iter_succ. simpl. lia.
Qed.

Lemma binary_normalize_of_count z :
  (0 < z < 2 ^ 63)%Z ->
  exists m e, binary_normalize prec emax z 0 false = S754_finite false m e.
Proof.
  intros Hz. destruct z as [|p|p]; try lia. simpl binary_normalize.
  unfold binary_round.
  assert (HD : (Zpos (digits2_pos p) <= 63)%Z).
  { change (Zpos (digits2_pos p)) with (Zdigits2 (Zpos p)).
    rewrite Zdigits2_log2 by lia.
    assert (Z.log2 (Zpos p) < 63)%Z by (apply Z.log2_lt_pow2; lia). lia. }
  assert (Hf : fexp prec emax (Z.pos (digits2_pos p) + 0)
               = (Zpos (digits2_pos p) - 53)%Z).
  { unfold fexp, SpecFloat.emin, prec, emax. lia. }
  assert (H0 : (0 < Z.pos (digits2_pos p))%Z) by apply Pos2Z.is_pos.
  unfold shl_align. rewrite Hf.
  destruct (Z.pos (digits2_pos p) - 53 - 0)%Z as [|d|d] eqn:Ed; cbv iota beta.
  - apply binary_round_aux_finite; cbn [Zdigits2]; lia.
  - apply binary_round_aux_finite; cbn [Zdigits2]; lia.
  - apply binary_round_aux_finite; cbn [Zdigits2].
    + lia.
    + rewrite digits2_pos_iter_xO. lia.
    + lia.
Qed.

Lemma is_finite_spec x : is_finite x = true -> sf_finite (Prim2SF x).
Proof.
  unfold is_finite, is_nan, is_infinity.
  rewrite !FloatAxioms.eqb_spec, FloatAxioms.abs_spec.
  change (Prim2SF infinity) with (S754_infinity false).
  intros H.
  destruct (Prim2SF x) as [s|s| |s m e]; try exact I;
    [destruct s|]; discriminate H.
Qed.

Lemma sf_finite_not_nan x : sf_finite x -> sf_not_nan x.
Proof. destruct x; simpl; auto. Qed.

Lemma squared_error_nonneg a p :
  is_finite a = true -> is_finite p = true ->
  sf_signed false (Prim2SF ((a - p) * (a - p))%float).
Proof.
  intros Ha Hp. rewrite FloatAxioms.mul_spec, FloatAxioms.sub_spec.
  apply SFmul_self_nonneg, SFsub_not_nan; now apply is_finite_spec.
Qed.

Lemma squared_errors_nonneg y_true y_pred :
  forallb is_finite y_true = true -> forallb is_finite y_pred = true ->
  Forall (fun x => sf_signed false (Prim2SF x)) (squared_errors y_true y_pred).
Proof.
  revert y_pred. induction y_true as [|a l IH]; intros [|p l'] H1 H2;
    simpl in *; try constructor.
  - apply andb_true_iff in H1, H2. apply squared_error_nonneg; tauto.
  - apply andb_true_iff in H1, H2. apply IH; tauto.
Qed.

(** ** The sum: the grouping of the additions *)

Lemma pairwise_sum_upto_small depth a :
  length a <= PW_BLOCKSIZE -> pairwise_sum_upto depth a = pairwise_block a.
Proof.
  intros H. destruct depth; cbn [pairwise_sum_upto]; [reflexivity|].
  apply Nat.leb_le in H. now rewrite H.
Qed.

Lemma pairwise_cut n :
  PW_BLOCKSIZE < n -> 0 < n / 2 - (n / 2) mod 8 < n.
Proof.
  unfold PW_BLOCKSIZE. intros H.
  assert (H2 : 64 <= n / 2) by (apply Nat.div_le_lower_bound; lia).
  assert (H3 : n / 2 < n) by (apply Nat.div_lt; lia).
  pose proof (Nat.mod_upper_bound (n / 2) 8). lia.
Qed.

(** More depth than the length changes nothing. *)
Lemma pairwise_sum_depth d1 : forall d2 a,
  length a <= d1 -> length a <= d2 ->
  pairwise_sum_upto d1 a = pairwise_sum_upto d2 a.
Proof.
  induction d1 as [|d1 IH]; intros d2 a H1 H2.
  - rewrite !pairwise_sum_upto_small; auto; unfold PW_BLOCKSIZE; lia.
  - destruct d2 as [|d2].
    { rewrite !pairwise_sum_upto_small; auto; unfold PW_BLOCKSIZE; lia. }
    cbn [pairwise_sum_upto].
    destruct (Nat.leb_spec (length a) PW_BLOCKSIZE) as [Hs|Hl]; [reflexivity|].
    pose proof (pairwise_cut (length a) Hl) as Hc.
    rewrite (IH d2 (firstn _ a)), (IH d2 (skipn _ a));
      rewrite ?length_firstn, ?length_skipn; try lia.
    reflexivity.
Qed.

(** The three cases of [DOUBLE_pairwise_sum]. *)
Lemma pairwise_sum_block a :
  length a <= PW_BLOCKSIZE -> pairwise_sum a = pairwise_block a.
Proof. apply pairwise_sum_upto_small. Qed.

Lemma pairwise_sum_cut a :
  PW_BLOCKSIZE < length a ->
  let n2 := length a / 2 - (length a / 2) mod 8 in
  pairwise_sum a
  = (pairwise_sum (firstn n2 a) + pairwise_sum (skipn n2 a))%float.
Proof.
  intros Hl n2. unfold pairwise_sum at 1.
  destruct (length a) as [|n] eqn:E; [unfold PW_BLOCKSIZE in Hl; lia|].
  cbn [pairwise_sum_upto]. rewrite E.
  destruct (Nat.leb_spec (S n) PW_BLOCKSIZE) as [Hs|_]; [lia|].
  pose proof (pairwise_cut (S n) Hl) as Hc. fold n2 in Hc |- *.
  unfold pairwise_sum.
  rewrite (pairwise_sum_depth n (length (firstn n2 a)) (firstn n2 a)),
          (pairwise_sum_depth n (length (skipn n2 a)) (skipn n2 a));
    rewrite ?length_firstn, ?length_skipn; try lia.
  reflexivity.
Qed.

Lemma chunks_concat {A : Type} m : forall l : list A,
  length l <= m -> concat (chunks m l) = l.
Proof.
  induction m as [|m IH]; intros [|x l] H; cbn [length] in H; try lia;
    try reflexivity.
  change (chunks (S m) (x :: l))
    with (firstn NPY_BUFSIZE (x :: l) :: chunks m (skipn NPY_BUFSIZE (x :: l))).
  cbn [concat]. rewrite IH; [apply firstn_skipn|].
  rewrite length_skipn. cbn [length]. unfold NPY_BUFSIZE. lia.
Qed.

Lemma chunks_one {A : Type} (l : list A) :
  l <> [] -> length l <= NPY_BUFSIZE -> chunks (length l) l = [l].
Proof.
  intros Hne Hl. destruct l as [|x l]; [congruence|].
  change (chunks (length (x :: l)) (x :: l))
    with (firstn NPY_BUFSIZE (x :: l)
          :: chunks (length l) (skipn NPY_BUFSIZE (x :: l))).
  rewrite firstn_all2, skipn_all2 by exact Hl.
  now destruct (length l).
Qed.

(** Up to the buffer size the sum is one pairwise sum, added to [0.0]. *)
Lemma float_sum_one_chunk xs :
  xs <> [] -> length xs <= NPY_BUFSIZE ->
  float_sum xs = (0 + pairwise_sum xs)%float.
Proof.
  intros Hne Hl. unfold float_sum. now rewrite chunks_one.
Qed.

Lemma Forall_take {A : Type} (P : A -> Prop) n : forall l,
  Forall P l -> Forall P (firstn n l).
Proof.
  induction n as [|n IH]; intros [|x l] H; cbn [firstn]; try constructor;
    inversion H; subst; auto.
Qed.

Lemma Forall_drop {A : Type} (P : A -> Prop) n : forall l,
  Forall P l -> Forall P (skipn n l).
Proof.
  induction n as [|n IH]; intros [|x l] H; cbn [skipn]; auto.
  inversion H; subst; auto.
Qed.

(** A property of [0.0] that the addition keeps holds of a sum of items
    that have it, however the additions are grouped. *)
Section SumInvariant.
Variable P : float -> Prop.
Hypothesis P_zero : P 0%float.
Hypothesis P_add : forall a b, P a -> P b -> P (a + b)%float.

Lemma fold_add_invariant xs : forall acc,
  P acc -> Forall P xs -> P (fold_left PrimFloat.add xs acc).
Proof.
  induction xs as [|x xs IH]; intros acc Ha Hxs; cbn [fold_left]; auto.
  inversion Hxs; subst. apply IH; auto.
Qed.

Lemma pairwise_accumulate_invariant a : forall n r r' rest,
  length a <= n ->
  pairwise_accumulate r a = (r', rest) ->
  (let '(r0, r1, r2, r3, r4, r5, r6, r7) := r in
   P r0 /\ P r1 /\ P r2 /\ P r3 /\ P r4 /\ P r5 /\ P r6 /\ P r7) ->
  Forall P a ->
  (let '(r0, r1, r2, r3, r4, r5, r6, r7) := r' in
   P r0 /\ P r1 /\ P r2 /\ P r3 /\ P r4 /\ P r5 /\ P r6 /\ P r7) /\
  Forall P rest.
Proof.
  intros n. revert a. induction n as [|n IH]; intros a r r' rest Hn E Hr Ha.
  - destruct a; [|cbn in Hn; lia]. cbn in E. injection E as <- <-. auto.
  - destruct a as [|a0 [|a1 [|a2 [|a3 [|a4 [|a5 [|a6 [|a7 a']]]]]]]];
      try (cbn in E; injection E as <- <-; auto; fail).
    destruct r as [[[[[[[r0 r1] r2] r3] r4] r5] r6] r7].
    cbn [pairwise_accumulate] in E.
    repeat match goal with
           | H : Forall P (_ :: _) |- _ => inversion H; clear H; subst
           end.
    apply IH in E; auto.
    + cbn [length] in Hn. lia.
    + intuition auto.
Qed.

Lemma pairwise_block_invariant a : Forall P a -> P (pairwise_block a).
Proof.
  intros Ha. unfold pairwise_block.
  destruct a as [|a0 [|a1 [|a2 [|a3 [|a4 [|a5 [|a6 [|a7 a']]]]]]]];
    try (apply fold_add_invariant; assumption).
  destruct (pairwise_accumulate (a0, a1, a2, a3, a4, a5, a6, a7) a')
    as [r' rest] eqn:E.
  repeat match goal with
         | H : Forall P (_ :: _) |- _ => inversion H; clear H; subst
         end.
  apply pairwise_accumulate_invariant with (n := length a') in E; auto;
    [|intuition auto].
  destruct r' as [[[[[[[r0 r1] r2] r3] r4] r5] r6] r7].
  destruct E as [(H0 & H1' & H2' & H3' & H4' & H5' & H6' & H7') Hrest].
  apply fold_add_invariant; auto.
Qed.

Lemma pairwise_sum_upto_invariant depth : forall a,
  Forall P a -> P (pairwise_sum_upto depth a).
Proof.
  induction depth as [|depth IH]; intros a Ha; cbn [pairwise_sum_upto].
  - now apply pairwise_block_invariant.
  - destruct (length a <=? PW_BLOCKSIZE);
      [now apply pairwise_block_invariant|].
    apply P_add; apply IH; [now apply Forall_take|now apply Forall_drop].
Qed.

Lemma chunks_invariant m : forall l : list float,
  Forall P l -> Forall (Forall P) (chunks m l).
Proof.
  induction m as [|m IH]; intros [|x l] H; try constructor.
  - now apply Forall_take.
  - apply IH. now apply Forall_drop.
Qed.

Lemma float_sum_invariant xs : Forall P xs -> P (float_sum xs).
Proof.
  intros H. unfold float_sum.
  pose proof (chunks_invariant (length xs) xs H) as Hc.
  generalize P_zero. generalize 0%float as acc.
  induction (chunks (length xs) xs) as [|c cs IH]; intros acc Hacc;
    cbn [fold_left]; auto.
  inversion Hc; subst. apply IH; auto.
  apply P_add; auto. now apply pairwise_sum_upto_invariant.
Qed.
End SumInvariant.

Lemma float_sum_nonneg xs :
  Forall (fun x => sf_signed false (Prim2SF x)) xs ->
  sf_signed false (Prim2SF (float_sum xs)).
Proof.
  apply float_sum_invariant with (P := fun x => sf_signed false (Prim2SF x)).
  - reflexivity.
  - intros a b Ha Hb. rewrite FloatAxioms.add_spec. now apply SFadd_nonneg.
Qed.

(** From eight items on the grouping shows: the sum of [0.1 .. 0.8] is
    [3.6], where adding from left to right gives [3.5999999999999996]. *)
Example float_sum_grouping :
  let xs := [0x1.999999999999ap-4; 0x1.999999999999ap-3; 0x1.3333333333333p-2;
             0x1.999999999999ap-2; 0x1p-1; 0x1.3333333333333p-1;
             0x1.6666666666666p-1; 0x1.999999999999ap-1]%float in
  float_sum xs = 0x1.ccccccccccccdp+1%float /\
  fold_left PrimFloat.add xs 0%float = 0x1.cccccccccccccp+1%float.
Proof. split; vm_compute; reflexivity. Qed.

Lemma float_of_len_finite n :
  (0 < n)%nat -> (Z.of_nat n < 2 ^ 63)%Z ->
  exists m e, Prim2SF (float_of_len n) = S754_finite false m e.
Proof.
  intros Hn Hb. unfold float_of_len. rewrite FloatAxioms.of_uint63_spec, Uint63.of_Z_spec.
  rewrite Z.mod_small by (change Uint63Axioms.wB with (2 ^ 63)%Z; lia).
  apply binary_normalize_of_count. lia.
Qed.

Lemma mean_squared_error_nonneg y_true y_pred mse :
  mean_squared_error y_true y_pred = Ok mse ->
  sf_signed false (Prim2SF mse).
Proof.
  unfold mean_squared_error. cbv zeta.
  destruct (negb (length y_true =? length y_pred)); [discriminate 1|].
  destruct (forallb is_finite y_true && forallb is_finite y_pred) eqn:Hfin;
    [|discriminate 1]. cbn [negb].
  destruct (length y_true =? 0) eqn:Hn; [discriminate 1|].
  destruct (2 ^ 63 <=? Z.of_nat (length y_true))%Z eqn:Hb; [discriminate 1|].
  intros H. injection H as <-.
  apply andb_true_iff in Hfin. destruct Hfin as [H1 H2].
  apply Nat.eqb_neq in Hn. apply Z.leb_gt in Hb.
  destruct (float_of_len_finite (length y_true)) as (m & e & Hc); try lia.
  rewrite FloatAxioms.div_spec, Hc. apply SFdiv_nonneg, float_sum_nonneg.
  now apply squared_errors_nonneg.
Qed.

Lemma sf_signed_ge0 x : sf_signed false x -> sf_ge0 x.
Proof. destruct x; simpl; auto. Qed.

Lemma math_sqrt_ge0 x e :
  sf_not_nan (Prim2SF x) -> math_sqrt x = Ok e -> sf_ge0 (Prim2SF e).
Proof.
  unfold math_sqrt. rewrite FloatAxioms.ltb_spec.
  change (Prim2SF 0) with (S754_zero false).
  intros Hx. destruct (SFltb (Prim2SF x) (S754_zero false)) eqn:Hlt;
    [discriminate 1|]. intros H. injection H as <-.
  rewrite FloatAxioms.sqrt_spec. apply SFsqrt_ge0.
  destruct (Prim2SF x) as [s|s| |s m ex]; simpl in *; auto;
    destruct s; auto; discriminate.
Qed.

Lemma sf_ge0_leb x : sf_ge0 (Prim2SF x) -> (0 <=? x)%float = true.
Proof.
  rewrite FloatAxioms.leb_spec. change (Prim2SF 0) with (S754_zero false).
  destruct (Prim2SF x) as [s|s| |s m e]; simpl; try tauto; intros ->; reflexivity.
Qed.

Ltac sf_order :=
  unfold SFleb, SFltb, SFeqb, SFcompare;
  repeat match goal with
         | s : bool |- _ => destruct s
         end;
  repeat match goal with
         | |- context [Z.compare ?a ?b] =>
             destruct (Z.compare_spec a b); try subst
         | |- context [PosDef.Pos.compare_cont Eq ?a ?b] =>
             change (PosDef.Pos.compare_cont Eq a b) with (Pos.compare a b);
             destruct (Pos.compare_spec a b); try subst
         end;
  cbn [CompOpp]; intros;
  try discriminate; try reflexivity; try assumption; try lia.

Lemma SFleb_trans x y z :
  SFleb x y = true -> SFleb y z = true -> SFleb x z = true.
Proof.
  destruct x as [sx|sx| |sx mx ex], y as [sy|sy| |sy my ey],
    z as [sz|sz| |sz mz ez]; sf_order.
Qed.

Lemma SFltb_leb x y : SFltb x y = true -> SFleb x y = true.
Proof.
  destruct x as [sx|sx| |sx mx ex], y as [sy|sy| |sy my ey]; sf_order.
Qed.

Lemma SFleb_total x y :
  sf_not_nan x -> sf_not_nan y -> SFltb y x = false -> SFleb x y = true.
Proof.
  destruct x as [sx|sx| |sx mx ex], y as [sy|sy| |sy my ey];
    simpl; try tauto; intros _ _; sf_order.
Qed.

Lemma SFltb_eqb_l x y k :
  SFltb y x = true -> SFeqb x k = true -> SFeqb y k = false.
Proof.
  destruct x as [sx|sx| |sx mx ex], y as [sy|sy| |sy my ey],
    k as [sk|sk| |sk mk ek]; sf_order.
Qed.

Lemma SFleb_antisym x y :
  SFleb x y = true -> SFleb y x = true -> SFeqb x y = true.
Proof.
  destruct x as [sx|sx| |sx mx ex], y as [sy|sy| |sy my ey]; sf_order.
Qed.

Lemma SFeqb_refl x : sf_not_nan x -> SFeqb x x = true.
Proof.
  destruct x as [sx|sx| |sx mx ex]; simpl; try tauto; intros _; sf_order.
Qed.

Lemma SFeqb_trans_l x y k :
  SFeqb x y = true -> SFeqb x k = SFeqb y k.
Proof.
  destruct x as [sx|sx| |sx mx ex], y as [sy|sy| |sy my ey],
    k as [sk|sk| |sk mk ek]; sf_order.
Qed.

(** ** The order of the floats that are no NaN *)

Lemma is_nan_spec x : is_nan x = false <-> sf_not_nan (Prim2SF x).
Proof.
  unfold is_nan. rewrite FloatAxioms.eqb_spec.
  destruct (Prim2SF x) as [s|s| |s m e]; simpl.
  - tauto.
  - destruct s; simpl; tauto.
  - split; [discriminate|tauto].
  - split; [tauto|intros _]. rewrite SFeqb_refl; auto. exact I.
Qed.

Lemma sf_ge0_not_nan x : sf_ge0 x -> sf_not_nan x.
Proof. destruct x; simpl; auto. Qed.

Lemma float_ltb_leb x y : (x <? y)%float = true -> (x <=? y)%float = true.
Proof. rewrite FloatAxioms.ltb_spec, FloatAxioms.leb_spec. apply SFltb_leb. Qed.

Lemma float_leb_total x y :
  is_nan x = false -> is_nan y = false ->
  (y <? x)%float = false -> (x <=? y)%float = true.
Proof.
  rewrite !is_nan_spec, FloatAxioms.ltb_spec, FloatAxioms.leb_spec.
  apply SFleb_total.
Qed.

Lemma float_leb_trans x y z :
  (x <=? y)%float = true -> (y <=? z)%float = true -> (x <=? z)%float = true.
Proof. rewrite !FloatAxioms.leb_spec. apply SFleb_trans. Qed.

Lemma float_ltb_eqb_l x y k :
  (y <? x)%float = true -> (x =? k)%float = true -> (y =? k)%float = false.
Proof.
  rewrite FloatAxioms.ltb_spec, !FloatAxioms.eqb_spec. apply SFltb_eqb_l.
Qed.

Lemma float_leb_antisym x y :
  (x <=? y)%float = true -> (y <=? x)%float = true -> (x =? y)%float = true.
Proof. rewrite !FloatAxioms.leb_spec, FloatAxioms.eqb_spec. apply SFleb_antisym. Qed.

Lemma float_eqb_refl x : is_nan x = false -> (x =? x)%float = true.
Proof. rewrite is_nan_spec, FloatAxioms.eqb_spec. apply SFeqb_refl. Qed.

Lemma float_eqb_trans_l x y k :
  (x =? y)%float = true -> (x =? k)%float = (y =? k)%float.
Proof. rewrite !FloatAxioms.eqb_spec. apply SFeqb_trans_l. Qed.

(** ** The stable sort *)

Section Sorting.
Variable A : Type.
Variable key : A -> float.

Local Abbreviation le := (key_le key).
Local Abbreviation ok := (key_ok key).
Local Abbreviation same := (same_key key).

Lemma insert_by_key_perm x l : Permutation (insert_by_key key x l) (x :: l).
Proof.
  induction l as [|y l IH]; simpl; auto.
  destruct (key_lt (key y) (key x)); auto.
  rewrite IH. apply perm_swap.
Qed.

Lemma sort_by_key_perm l : Permutation (sort_by_key key l) l.
Proof.
  induction l as [|x l IH]; simpl; auto.
  rewrite insert_by_key_perm. now constructor.
Qed.

Lemma insert_by_key_sorted x l :
  ok x -> Forall ok l -> StronglySorted le l ->
  StronglySorted le (insert_by_key key x l).
Proof.
  intros Hx Hl Hs. induction Hs as [|y l Hs IH Hy]; simpl.
  - repeat constructor.
  - inversion Hl as [|? ? Hoy Hol]; subst.
    unfold key_lt. destruct (key y <? key x)%float eqn:Hlt.
    + constructor; [now apply IH|].
      rewrite (insert_by_key_perm x l). constructor; [|exact Hy].
      now apply float_ltb_leb.
    + assert (Hxy : le x y) by now apply float_leb_total.
      constructor; [now constructor|]. constructor; [exact Hxy|].
      eapply Forall_impl; [|exact Hy]. intros z Hz.
      eapply float_leb_trans; eauto.
Qed.

Lemma sort_by_key_sorted l :
  Forall ok l -> StronglySorted le (sort_by_key key l).
Proof.
  induction 1 as [|x l Hx Hl IH]; simpl; [constructor|].
  apply insert_by_key_sorted; auto.
  rewrite (sort_by_key_perm l). exact Hl.
Qed.

Lemma insert_by_key_stable k x l :
  filter (same k) (insert_by_key key x l) = filter (same k) (x :: l).
Proof.
  induction l as [|y l IH]; [reflexivity|].
  cbn [insert_by_key]. unfold key_lt.
  destruct (key y <? key x)%float eqn:Hlt; [|reflexivity].
  cbn [filter] in *. rewrite IH.
  destruct (same k x) eqn:Hx; [|reflexivity].
  unfold same_key in *. now rewrite (float_ltb_eqb_l _ _ _ Hlt Hx).
Qed.

Lemma sort_by_key_stable k l :
  filter (same k) (sort_by_key key l) = filter (same k) l.
Proof.
  induction l as [|x l IH]; [reflexivity|].
  cbn [sort_by_key]. rewrite insert_by_key_stable. cbn [filter].
  now rewrite IH.
Qed.

(** Two sorted arrangements in which the items of every key follow one
    another in the same order are the same list. *)
Lemma stable_sort_unique l1 : forall l2,
  Forall ok l1 -> Forall ok l2 ->
  StronglySorted le l1 -> StronglySorted le l2 ->
  (forall k, filter (same k) l1 = filter (same k) l2) ->
  l1 = l2.
Proof.
  induction l1 as [|a l1 IH]; intros l2 Ho1 Ho2 Hs1 Hs2 Hf.
  - destruct l2 as [|b l2]; [reflexivity|].
    inversion Ho2 as [|? ? Hb _]; subst.
    specialize (Hf (key b)). cbn [filter] in Hf. unfold same_key in Hf.
    rewrite (float_eqb_refl _ Hb) in Hf. discriminate.
  - inversion Ho1 as [|? ? Ha Ho1']; subst.
    destruct l2 as [|b l2].
    + specialize (Hf (key a)). cbn [filter] in Hf. unfold same_key in Hf.
      rewrite (float_eqb_refl _ Ha) in Hf. discriminate.
    + inversion Ho2 as [|? ? Hb Ho2']; subst.
      inversion Hs1 as [|? ? Hs1' Hl1]; subst.
      inversion Hs2 as [|? ? Hs2' Hl2]; subst.
      assert (Hab : le a b).
      { pose proof (Hf (key b)) as E. cbn [filter] in E. unfold same_key in E.
        rewrite (float_eqb_refl _ Hb) in E.
        assert (Hin : In b (filter (same (key b)) (a :: l1))).
        { cbn [filter]. unfold same_key. rewrite E. now left. }
        apply filter_In in Hin. destruct Hin as [[->|Hin] _].
        - apply float_leb_total; auto.
          destruct (key b <? key b)%float eqn:Hlt; auto.
          pose proof (float_ltb_eqb_l _ _ _ Hlt (float_eqb_refl _ Hb)).
          rewrite float_eqb_refl in *; auto.
        - rewrite Forall_forall in Hl1. now apply Hl1. }
      assert (Hba : le b a).
      { pose proof (Hf (key a)) as E. cbn [filter] in E. unfold same_key in E.
        rewrite (float_eqb_refl _ Ha) in E.
        assert (Hin : In a (filter (same (key a)) (b :: l2))).
        { cbn [filter]. unfold same_key. rewrite <- E. now left. }
        apply filter_In in Hin. destruct Hin as [[->|Hin] _].
        - exact Hab.
        - rewrite Forall_forall in Hl2. now apply Hl2. }
      pose proof (float_leb_antisym _ _ Hab Hba) as Heq.
      assert (Hhd : a = b).
      { pose proof (Hf (key b)) as E. cbn [filter] in E. unfold same_key in E.
        rewrite Heq, (float_eqb_refl _ Hb) in E. now injection E. }
      subst b. f_equal. apply IH; auto.
      intros k. specialize (Hf k). cbn [filter] in Hf.
      destruct (same k a); [now injection Hf|exact Hf].
Qed.
(** Whatever the algorithm, a sorted arrangement of [l] that keeps the
    items of every key in their order is the one [sort_by_key] gives. *)
Lemma sort_by_key_unique l l' :
  Forall ok l -> Forall ok l' ->
  StronglySorted le l' ->
  (forall k, filter (same k) l' = filter (same k) l) ->
  l' = sort_by_key key l.
Proof.
  intros Hl Hl' Hs Hf. apply stable_sort_unique; auto.
  - rewrite (sort_by_key_perm l). exact Hl.
  - now apply sort_by_key_sorted.
  - intros k. now rewrite sort_by_key_stable.
Qed.
End Sorting.

(* ===================================================================== *)
(** * 8. The program and the store                                        *)
(* ===================================================================== *)

(** ** Frame reasoning: which objects a computation leaves alone *)

(** From [w] to [w'] the first [k] objects are untouched and no object is
    dropped. *)
Definition pres (k : nat) (w w' : world) : Prop :=
  firstn k (heap w') = firstn k (heap w) /\ length (heap w) <= length (heap w').

(** [m] leaves the first [k] objects alone, and a value it returns
    satisfies [Q]. *)
Definition keeps {A : Type} (k : nat) (m : M A) (Q : A -> Prop) : Prop :=
  forall w, k <= length (heap w) ->
    pres k w (snd (m w)) /\ forall a, fst (m w) = Ok a -> Q a.

Lemma pres_refl k w : pres k w w.
Proof. split; auto. Qed.

Lemma pres_trans k w1 w2 w3 : pres k w1 w2 -> pres k w2 w3 -> pres k w1 w3.
Proof. intros [E1 L1] [E2 L2]. split; [congruence|lia]. Qed.

Lemma length_store {A} i (x : A) l : length (store i x l) = length l.
Proof. revert i; induction l; intros [|i]; simpl; auto. Qed.

Lemma firstn_store {A} k i (x : A) l :
  k <= i -> firstn k (store i x l) = firstn k l.
Proof.
  revert k i; induction l as [|y l IH]; intros [|k] [|i] H; simpl; auto; try lia.
  f_equal. apply IH. lia.
Qed.

Lemma firstn_app_le {A} k (l1 l2 : list A) :
  k <= length l1 -> firstn k (l1 ++ l2) = firstn k l1.
Proof.
  intros H. rewrite firstn_app. replace (k - length l1) with 0 by lia.
  simpl. apply app_nil_r.
Qed.

Lemma keeps_weaken {A} k (m : M A) (Q R : A -> Prop) :
  keeps k m Q -> (forall a, Q a -> R a) -> keeps k m R.
Proof. intros H HQ w Hk. destruct (H w Hk). split; auto. Qed.

Lemma keeps_ret {A} k (a : A) (Q : A -> Prop) : Q a -> keeps k (ret a) Q.
Proof.
  intros H w _. split; [apply pres_refl|]. simpl. now intros ? [= <-].
Qed.

Lemma keeps_raise {A} k e (Q : A -> Prop) : keeps k (raise e) Q.
Proof. intros w _. split; [apply pres_refl|]. simpl. discriminate. Qed.

Lemma keeps_lift {A} k (r : result A) : keeps k (lift r) (fun _ => True).
Proof. intros w _. split; [apply pres_refl|]. auto. Qed.

Lemma keeps_bind {A B} k (m : M A) (f : A -> M B) (Q : A -> Prop)
    (R : B -> Prop) :
  keeps k m Q -> (forall a, Q a -> keeps k (f a) R) -> keeps k (bind m f) R.
Proof.
  intros Hm Hf w Hk. unfold bind.
  destruct (Hm w Hk) as [Hp HQ].
  destruct (m w) as [[a|e] w1]; simpl in *.
  - destruct (Hf a (HQ a eq_refl) w1) as [Hp' HR]; [destruct Hp; lia|].
    split; [eapply pres_trans; eauto|exact HR].
  - split; [exact Hp|discriminate].
Qed.

Lemma keeps_try_except {A} k (m : M A) (h : exn -> M A) (Q : A -> Prop) :
  keeps k m Q -> (forall e, keeps k (h e) Q) -> keeps k (try_except m h) Q.
Proof.
  intros Hm Hh w Hk. unfold try_except.
  destruct (Hm w Hk) as [Hp HQ].
  destruct (m w) as [[a|e] w1]; simpl in *.
  - split; auto.
  - destruct (Hh e w1) as [Hp' HR]; [destruct Hp; lia|].
    split; [eapply pres_trans; eauto|exact HR].
Qed.

Lemma keeps_new_list k xs : keeps k (new_list xs) (fun l => k <= l).
Proof.
  intros w Hk. unfold new_list, pres; simpl. repeat split.
  - now apply firstn_app_le.
  - rewrite length_app. lia.
  - intros a [= <-]. exact Hk.
Qed.

Lemma keeps_new_config_list k cs :
  keeps k (new_config_list cs) (fun l => k <= l).
Proof.
  intros w Hk. unfold new_config_list, pres; simpl. repeat split.
  - now apply firstn_app_le.
  - rewrite length_app. lia.
  - intros a [= <-]. exact Hk.
Qed.

Lemma keeps_read_floats k l : keeps k (read_floats l) (fun _ => True).
Proof.
  intros w _. unfold read_floats.
  destruct (nth_error (heap w) l) as [[xs|cs]|]; simpl;
    split; auto using pres_refl.
Qed.

Lemma keeps_read_configs k l : keeps k (read_configs l) (fun _ => True).
Proof.
  intros w _. unfold read_configs.
  destruct (nth_error (heap w) l) as [[xs|cs]|]; simpl;
    split; auto using pres_refl.
Qed.

Lemma keeps_list_append k l x :
  k <= l -> keeps k (list_append l x) (fun _ => True).
Proof.
  intros Hl w _. unfold list_append.
  destruct (nth_error (heap w) l) as [[xs|cs]|]; simpl;
    split; auto using pres_refl.
  split; simpl; [now apply firstn_store|now rewrite length_store].
Qed.

Lemma keeps_config_list_append k l c :
  k <= l -> keeps k (config_list_append l c) (fun _ => True).
Proof.
  intros Hl w _. unfold config_list_append.
  destruct (nth_error (heap w) l) as [[xs|cs]|]; simpl;
    split; auto using pres_refl.
  split; simpl; [now apply firstn_store|now rewrite length_store].
Qed.

Lemma keeps_index {A} k (xs : list A) i : keeps k (index xs i) (fun _ => True).
Proof.
  unfold index. destruct (nth_error xs i);
    [now apply keeps_ret|apply keeps_raise].
Qed.

Lemma keeps_print k ln : keeps k (print ln) (fun _ => True).
Proof. intros w _. split; [split; simpl; auto|auto]. Qed.

Lemma keeps_for_each {A} k (xs : list A) (body : A -> M unit) :
  (forall x, keeps k (body x) (fun _ => True)) ->
  keeps k (for_each xs body) (fun _ => True).
Proof.
  intros Hb. induction xs as [|x xs IH]; simpl.
  - now apply keeps_ret.
  - eapply keeps_bind; [apply Hb|]. intros _ _. exact IH.
Qed.

Lemma keeps_list_comp {A B} k (f : A -> M B) (xs : list A) :
  (forall x, keeps k (f x) (fun _ => True)) ->
  keeps k (list_comp f xs) (fun _ => True).
Proof.
  intros Hf. induction xs as [|x xs IH]; simpl.
  - now apply keeps_ret.
  - eapply keeps_bind; [apply Hf|]. intros y _.
    eapply keeps_bind; [apply IH|]. intros ys _. now apply keeps_ret.
Qed.

Lemma keeps_train_test_split k data n_test :
  keeps k (train_test_split data n_test) (fun _ => True).
Proof.
  unfold train_test_split. eapply keeps_bind; [apply keeps_read_floats|].
  intros xs _. now apply keeps_ret.
Qed.

Lemma keeps_measure_rmse k actual predicted :
  keeps k (measure_rmse actual predicted) (fun _ => True).
Proof.
  unfold measure_rmse. eapply keeps_bind; [apply keeps_read_floats|].
  intros xs _. eapply keeps_bind; [apply keeps_lift|].
  intros mse _. apply keeps_lift.
Qed.

Section FrameEngine.
Variable ES : ets_model.

Lemma keeps_exp_smoothing_forecast k h cfg :
  keeps k (exp_smoothing_forecast ES h cfg) (fun _ => True).
Proof.
  destruct cfg as [t d s p b r]. unfold exp_smoothing_forecast.
  eapply keeps_bind; [apply keeps_read_floats|]. intros xs _.
  eapply keeps_bind; [apply keeps_lift|]. intros yhat _.
  apply keeps_index.
Qed.

Lemma keeps_walk_forward_step k h p test cfg i :
  k <= h -> k <= p ->
  keeps k (walk_forward_step ES h p test cfg i) (fun _ => True).
Proof.
  intros Hh Hp. unfold walk_forward_step.
  eapply keeps_bind; [apply keeps_exp_smoothing_forecast|]. intros yhat _.
  eapply keeps_bind; [now apply keeps_list_append|]. intros _ _.
  eapply keeps_bind; [apply keeps_index|]. intros x _.
  now apply keeps_list_append.
Qed.

Lemma keeps_walk_forward_validation k data n_test cfg :
  keeps k (walk_forward_validation ES data n_test cfg) (fun _ => True).
Proof.
  unfold walk_forward_validation.
  eapply keeps_bind; [apply keeps_new_list|]. intros p Hp.
  eapply keeps_bind; [apply keeps_train_test_split|]. intros [train test] _.
  eapply keeps_bind; [apply keeps_new_list|]. intros h Hh.
  eapply keeps_bind;
    [apply keeps_for_each; intros i; now apply keeps_walk_forward_step|].
  intros _ _. eapply keeps_bind; [apply keeps_measure_rmse|].
  intros e _. now apply keeps_ret.
Qed.

Lemma keeps_score_model k data n_test cfg debug :
  keeps k (score_model ES data n_test cfg debug) (fun _ => True).
Proof.
  unfold score_model.
  assert (Hb : keeps k
            (r <- walk_forward_validation ES data n_test cfg ;; ret (Some r))
            (fun _ => True)).
  { eapply keeps_bind; [apply keeps_walk_forward_validation|].
    intros r _. now apply keeps_ret. }
  eapply keeps_bind with (Q := fun _ => True).
  - destruct debug; [exact Hb|].
    apply keeps_try_except; [exact Hb|]. intros e. now apply keeps_ret.
  - intros res _. eapply keeps_bind with (Q := fun _ => True).
    + destruct res; [apply keeps_print|now apply keeps_ret].
    + intros _ _. now apply keeps_ret.
Qed.

Lemma keeps_Parallel {A} k sched (tasks : list (M A)) :
  keeps k (Parallel sched tasks) (fun _ => True).
Proof. intros w _. split; [split; simpl; auto|auto]. Qed.

Lemma keeps_grid_search k data cfg_list n_test parallel sched :
  keeps k (grid_search ES data cfg_list n_test parallel sched)
        (fun _ => True).
Proof.
  unfold grid_search.
  eapply keeps_bind; [apply keeps_read_configs|]. intros cfgs _.
  eapply keeps_bind with (Q := fun _ => True).
  - destruct parallel; [apply keeps_Parallel|].
    apply keeps_list_comp. intros cfg. apply keeps_score_model.
  - intros scores _. eapply keeps_bind; [apply keeps_lift|].
    intros ranked _. now apply keeps_ret.
Qed.
End FrameEngine.

Lemma pres_lookup k w w' l :
  pres k w w' -> l < k -> nth_error (heap w') l = nth_error (heap w) l.
Proof.
  intros [E _] Hl.
  assert (H : forall h : list pyobj, nth_error h l = nth_error (firstn k h) l).
  { intros h. rewrite nth_error_firstn.
    apply Nat.ltb_lt in Hl. now rewrite Hl. }
  now rewrite (H (heap w')), (H (heap w)), E.
Qed.

(** ** Store lemmas *)

Lemma nth_error_last2_0 (H : list pyobj) a b :
  nth_error (H ++ [a; b]) (length H) = Some a.
Proof. rewrite nth_error_app2, Nat.sub_diag by lia. reflexivity. Qed.

Lemma nth_error_last2_1 (H : list pyobj) a b :
  nth_error (H ++ [a; b]) (S (length H)) = Some b.
Proof.
  rewrite nth_error_app2 by lia.
  replace (S (length H) - length H) with 1 by lia. reflexivity.
Qed.

Lemma store_app_r {A} (l1 l2 : list A) i x :
  store (length l1 + i) x (l1 ++ l2) = l1 ++ store i x l2.
Proof. induction l1; simpl; auto. now rewrite IHl1. Qed.

Lemma store_last2_0 (H : list pyobj) a b c :
  store (length H) c (H ++ [a; b]) = H ++ [c; b].
Proof.
  rewrite <- (Nat.add_0_r (length H)) at 1. now rewrite store_app_r.
Qed.

Lemma store_last2_1 (H : list pyobj) a b c :
  store (S (length H)) c (H ++ [a; b]) = H ++ [a; c].
Proof.
  replace (S (length H)) with (length H + 1) by lia. now rewrite store_app_r.
Qed.

Section Run.
Variable ES : ets_model.

Lemma exp_smoothing_forecast_run h cfg w xs :
  nth_error (heap w) h = Some (FloatSeq xs) ->
  exp_smoothing_forecast ES h cfg w = (forecast_of ES xs cfg, w).
Proof.
  intros Hh. destruct cfg as [t d s p b r].
  unfold exp_smoothing_forecast, forecast_of, bind, read_floats, lift, index.
  rewrite Hh.
  destruct (ES xs t d s p b r (length xs) (length xs)) as [yhat|e]; auto.
  destruct (nth_error yhat 0); reflexivity.
Qed.

Lemma walk_forward_step_run H out hist preds test cfg i x :
  nth_error test i = Some x ->
  walk_forward_step ES (S (length H)) (length H) test cfg i
    (World (H ++ [FloatSeq preds; FloatSeq hist]) out)
  = match forecast_of ES hist cfg with
    | Ok yhat =>
        (Ok tt, World (H ++ [FloatSeq (preds ++ [yhat]);
                             FloatSeq (hist ++ [x])]) out)
    | Raise e =>
        (Raise e, World (H ++ [FloatSeq preds; FloatSeq hist]) out)
    end.
Proof.
  intros Hx. unfold walk_forward_step, bind.
  rewrite exp_smoothing_forecast_run with (xs := hist)
    by apply nth_error_last2_1.
  destruct (forecast_of ES hist cfg) as [yhat|e]; auto.
  unfold list_append at 1. cbn [heap stdout].
  rewrite nth_error_last2_0, store_last2_0.
  unfold index. rewrite Hx. unfold ret, list_append. cbn [heap stdout].
  now rewrite nth_error_last2_1, store_last2_1.
Qed.

Lemma walk_forward_loop_run test cfg H out : forall len start hist preds,
  start + len <= length test ->
  for_each (seq start len)
    (walk_forward_step ES (S (length H)) (length H) test cfg)
    (World (H ++ [FloatSeq preds; FloatSeq hist]) out)
  = let '(r, (hist', preds')) :=
      walk_forward_loop ES (firstn len (skipn start test)) hist preds cfg in
    (r, World (H ++ [FloatSeq preds'; FloatSeq hist']) out).
Proof.
  induction len as [|len IH]; intros start hist preds Hle.
  - reflexivity.
  - destruct (nth_error test start) as [x|] eqn:Hx.
    2:{ apply nth_error_None in Hx. lia. }
    assert (Hs : skipn start test = x :: skipn (S start) test).
    { clear -Hx. revert test Hx.
      induction start; intros [|y t]; simpl; intros; try discriminate.
      - now injection Hx as ->.
      - now apply IHstart. }
    rewrite Hs. cbn [seq for_each firstn walk_forward_loop].
    unfold bind at 1. rewrite walk_forward_step_run with (x := x) by exact Hx.
    destruct (forecast_of ES hist cfg) as [yhat|e]; [|reflexivity].
    apply IH. lia.
Qed.

Lemma walk_forward_validation_run H out data series n_test cfg :
  nth_error H data = Some (FloatSeq series) ->
  walk_forward_validation ES data n_test cfg (World H out)
  = let train := slice_to series (- n_test) in
    let test := slice_from series (- n_test) in
    let '(r, (hist, preds)) := walk_forward_loop ES test train [] cfg in
    (match r with
     | Ok _ => rmse_of test preds
     | Raise e => Raise e
     end,
     World (H ++ [FloatSeq preds; FloatSeq hist]) out).
Proof.
  intros Hd. cbv zeta.
  assert (Hd' : nth_error (H ++ [FloatSeq []]) data = Some (FloatSeq series)).
  { rewrite nth_error_app1; auto. apply nth_error_Some. congruence. }
  unfold walk_forward_validation, bind at 1, new_list at 1. cbn [heap stdout].
  unfold bind at 1, train_test_split, bind at 1, read_floats.
  cbn [heap stdout]. rewrite Hd'. unfold ret at 1.
  unfold bind at 1, new_list. cbn [heap stdout].
  rewrite <- app_assoc, length_app, Nat.add_comm. cbn [length app Nat.add].
  unfold bind at 1, range.
  rewrite walk_forward_loop_run by (cbn; lia).
  rewrite skipn_O, firstn_all.
  destruct (walk_forward_loop ES (slice_from series (- n_test))
              (slice_to series (- n_test)) [] cfg) as [[[]|e] [hist preds]];
    [|reflexivity].
  unfold bind, measure_rmse, bind, read_floats. cbn [heap stdout].
  rewrite nth_error_last2_0. unfold lift, rmse_of, ret.
  destruct (mean_squared_error _ preds) as [mse|e]; [|reflexivity].
  destruct (math_sqrt mse); reflexivity.
Qed.

Lemma walk_forward_validation_result w data obj n_test cfg :
  nth_error (heap w) data = Some obj ->
  fst (walk_forward_validation ES data n_test cfg w)
  = walk_forward_error ES obj n_test cfg.
Proof.
  destruct w as [H out]. cbn [heap]. intros Hd. destruct obj as [series|cs].
  - rewrite walk_forward_validation_run with (series := series) by exact Hd.
    unfold walk_forward_error. cbv zeta.
    destruct (walk_forward_loop ES _ _ [] cfg) as [[[]|e] [hist preds]];
      reflexivity.
  - assert (Hd' : nth_error (H ++ [FloatSeq []]) data = Some (ConfigSeq cs)).
    { rewrite nth_error_app1; auto. apply nth_error_Some. congruence. }
    unfold walk_forward_validation, bind at 1, new_list at 1.
    cbn [heap stdout].
    unfold bind at 1, train_test_split, bind at 1, read_floats.
    cbn [heap stdout]. rewrite Hd'. reflexivity.
Qed.

(** [score_model] in terms of [walk_forward_validation], in any world. *)
Lemma score_model_outcome w data n_test cfg debug :
  fst (score_model ES data n_test cfg debug w)
  = match fst (walk_forward_validation ES data n_test cfg w) with
    | Ok e => Ok (str cfg, Some e)
    | Raise x => if debug then Raise x else Ok (str cfg, None)
    end.
Proof.
  unfold score_model, try_except, bind, print, ret.
  destruct debug;
    destruct (walk_forward_validation ES data n_test cfg w) as [[e|x] w1];
    reflexivity.
Qed.

Lemma score_model_result w data obj n_test cfg :
  nth_error (heap w) data = Some obj ->
  fst (score_model ES data n_test cfg false w)
  = Ok (score_of ES obj n_test cfg).
Proof.
  intros Hd. rewrite score_model_outcome.
  rewrite walk_forward_validation_result with (obj := obj) by exact Hd.
  unfold score_of. destruct (walk_forward_error ES obj n_test cfg); reflexivity.
Qed.
End Run.

(** ** The search, sequential and parallel *)

Lemma gather_map_Ok {A} (l : list A) : gather (map Ok l) = Ok l.
Proof. induction l; simpl; auto. now rewrite IHl. Qed.

Lemma map_nth_error_seq {A B} (g : option A -> B) (l : list A) :
  map (fun i => g (nth_error l i)) (seq 0 (length l))
  = map (fun x => g (Some x)) l.
Proof.
  induction l as [|x l IH]; simpl; auto.
  f_equal. rewrite <- seq_shift, map_map. exact IH.
Qed.

Lemma lookup_outcome_In {A} i (outs : list (nat * result A)) :
  In i (map fst outs) ->
  exists r, lookup_outcome i outs = Some r /\ In (i, r) outs.
Proof.
  induction outs as [|[j r] outs IH]; simpl; [tauto|]. intros Hin.
  destruct (Nat.eqb_spec i j) as [->|Hne].
  - eauto.
  - destruct Hin as [->|Hin]; [congruence|].
    destruct (IH Hin) as (r' & E & Hr). eauto.
Qed.

Section Search.
Variable ES : ets_model.
Variables (data : loc) (obj : pyobj) (n_test : Z).

Local Abbreviation holds w := (nth_error (heap w) data = Some obj).
Local Abbreviation task := (fun cfg => score_model ES data n_test cfg false).

Lemma score_model_keeps_data w cfg :
  holds w -> holds (snd (task cfg w)).
Proof.
  intros Hd.
  destruct (@keeps_score_model ES (length (heap w)) data n_test cfg false w
              (le_n _)) as [Hp _].
  rewrite (@pres_lookup (length (heap w)) w _ data Hp); auto.
  apply nth_error_Some. congruence.
Qed.

Lemma list_comp_scores cfgs : forall w,
  holds w ->
  fst (list_comp task cfgs w) = Ok (map (score_of ES obj n_test) cfgs).
Proof.
  induction cfgs as [|cfg cfgs IH]; intros w Hw; [reflexivity|].
  cbn [list_comp map]. unfold bind at 1.
  pose proof (@score_model_result ES w data obj n_test cfg Hw) as Hr.
  pose proof (@score_model_keeps_data w cfg Hw) as Hk.
  destruct (task cfg w) as [r w1]. cbn [fst snd] in Hr, Hk. subst r.
  unfold bind at 1. specialize (IH w1 Hk).
  destruct (list_comp task cfgs w1) as [rs w2]. cbn [fst] in IH. subst rs.
  reflexivity.
Qed.

Lemma run_batch_outcomes cfgs batch : forall w,
  holds w ->
  Forall (fun ir => exists cfg, nth_error cfgs (fst ir) = Some cfg /\
                                snd ir = Ok (score_of ES obj n_test cfg))
         (fst (run_batch (map task cfgs) batch w))
  /\ (forall i, In i batch -> i < length cfgs ->
                In i (map fst (fst (run_batch (map task cfgs) batch w)))).
Proof.
  induction batch as [|i batch IH]; intros w Hw; cbn [run_batch].
  - split; [constructor|]. intros i [].
  - rewrite nth_error_map.
    destruct (nth_error cfgs i) as [cfg|] eqn:Hi; cbn [option_map].
    + pose proof (@score_model_result ES w data obj n_test cfg Hw) as Hr.
      pose proof (@score_model_keeps_data w cfg Hw) as Hk.
        destruct (task cfg w) as [r w1]. cbn [fst snd] in Hr, Hk. subst r.
      destruct (IH w1 Hk) as [IH1 IH2].
      destruct (run_batch (map task cfgs) batch w1) as [rs w2].
      cbn [fst] in *. split.
      * constructor; [|exact IH1]. exists cfg. auto.
      * intros j [<-|Hj] Hlt; [now left|]. right. now apply IH2.
    + destruct (IH w Hw) as [IH1 IH2]. split; [exact IH1|].
      intros j [<-|Hj] Hlt; [|now apply IH2].
      apply nth_error_None in Hi. lia.
Qed.

Lemma Parallel_scores sched cfgs w :
  holds w ->
  fst (Parallel sched (map task cfgs) w)
  = Ok (map (score_of ES obj n_test) cfgs).
Proof.
  intros Hw. unfold Parallel. cbn [fst]. rewrite length_map.
  set (rest := filter _ (seq 0 (length cfgs))).
  set (w0 := World (heap w) []).
  assert (Hw0 : holds w0) by exact Hw.
  set (runs := map (fun batch => run_batch (map task cfgs) batch w0)
                   (sched ++ [rest])).
  set (outs := flat_map fst runs).
  assert (Hall : Forall (fun ir => exists cfg,
                   nth_error cfgs (fst ir) = Some cfg /\
                   snd ir = Ok (score_of ES obj n_test cfg)) outs).
  { subst outs runs. apply Forall_forall. intros ir Hin.
    apply in_flat_map in Hin. destruct Hin as (run & Hrun & Hin).
    apply in_map_iff in Hrun. destruct Hrun as (batch & <- & _).
    destruct (@run_batch_outcomes cfgs batch w0 Hw0) as [Hf _].
    rewrite Forall_forall in Hf. now apply Hf. }
  assert (Hcov : forall i, i < length cfgs -> In i (map fst outs)).
  { intros i Hi.
    assert (Hb : exists batch, In batch (sched ++ [rest]) /\ In i batch).
    { destruct (existsb (Nat.eqb i) (concat sched)) eqn:Hc.
      - apply existsb_exists in Hc. destruct Hc as (j & Hj & Hij).
        apply Nat.eqb_eq in Hij. subst j.
        apply in_concat in Hj. destruct Hj as (batch & Hb & Hj).
        exists batch. split; [apply in_or_app; now left|exact Hj].
      - exists rest. split; [apply in_or_app; right; now left|].
        subst rest. apply filter_In. split; [apply in_seq; lia|].
        now rewrite Hc. }
    destruct Hb as (batch & Hb & Hin).
    destruct (@run_batch_outcomes cfgs batch w0 Hw0) as [_ Hc].
    specialize (Hc i Hin Hi).
    apply in_map_iff in Hc. destruct Hc as (ir & Hfst & Hir).
    apply in_map_iff. exists ir. split; [exact Hfst|].
    subst outs runs. apply in_flat_map.
    exists (run_batch (map task cfgs) batch w0). split; [|exact Hir].
    apply in_map_iff. eauto. }
  rewrite <- (@gather_map_Ok _ (map (score_of ES obj n_test) cfgs)).
  f_equal. rewrite map_map.
  rewrite <- (@map_nth_error_seq _ _
                (fun o => match o with
                          | Some cfg => Ok (score_of ES obj n_test cfg)
                          | None => Raise (PyExc "RuntimeError")
                          end) cfgs).
  apply map_ext_in. intros i Hi. apply in_seq in Hi.
  destruct (@lookup_outcome_In _ i outs (Hcov i ltac:(lia))) as (r & -> & Hr).
  rewrite Forall_forall in Hall.
  destruct (Hall _ Hr) as (cfg & Hc & Hs). cbn [fst snd] in Hc, Hs.
  now rewrite Hc, Hs.
Qed.
End Search.

(** ** The ranking *)

Lemma list_sort_present (scores : list score) :
  list_sort (@snd string (option float))
            (filter (fun r => is_some (snd r)) scores)
  = Ok (sort_by_key error_of (filter (fun r => is_some (snd r)) scores)).
Proof.
  unfold list_sort.
  match goal with
  | |- context [negb ?b] => assert (H : b = true)
  end.
  { apply forallb_forall. intros r Hr. now apply filter_In in Hr. }
  rewrite H, andb_false_r. reflexivity.
Qed.

Section Ranking.
Variable ES : ets_model.

(** The list [grid_search] returns, from the scores of the candidates. *)
Lemma grid_search_result w data cfg_list obj cfgs n_test parallel sched :
  nth_error (heap w) data = Some obj ->
  nth_error (heap w) cfg_list = Some (ConfigSeq cfgs) ->
  fst (grid_search ES data cfg_list n_test parallel sched w)
  = Ok (sort_by_key error_of
          (filter (fun r => is_some (snd r))
                  (map (score_of ES obj n_test) cfgs))).
Proof.
  intros Hd Hc. unfold grid_search, bind at 1, read_configs. rewrite Hc.
  set (m := if parallel then _ else _).
  assert (Hs : fst (m w) = Ok (map (score_of ES obj n_test) cfgs)).
  { subst m. destruct parallel.
    - now apply Parallel_scores.
    - now apply list_comp_scores. }
  unfold bind at 1. destruct (m w) as [r w1]. cbn [fst] in Hs. subst r.
  unfold bind, lift, ret. rewrite list_sort_present. reflexivity.
Qed.

(** ** The error is a number, and not negative *)

Lemma rmse_of_ge0 actual predicted e :
  rmse_of actual predicted = Ok e -> (0 <=? e)%float = true.
Proof.
  unfold rmse_of.
  destruct (mean_squared_error actual predicted) as [mse|x] eqn:Hm;
    [|discriminate 1].
  intros Hs. apply sf_ge0_leb. apply (math_sqrt_ge0 mse); [|exact Hs].
  eapply sf_signed_not_nan, mean_squared_error_nonneg, Hm.
Qed.

Lemma leb_0_not_nan e : (0 <=? e)%float = true -> is_nan e = false.
Proof.
  rewrite FloatAxioms.leb_spec, is_nan_spec.
  destruct (Prim2SF e); simpl; auto. discriminate.
Qed.

Lemma walk_forward_error_ge0 obj n_test cfg e :
  walk_forward_error ES obj n_test cfg = Ok e -> (0 <=? e)%float = true.
Proof.
  unfold walk_forward_error. destruct obj as [series|cs]; [|discriminate 1].
  cbv zeta.
  destruct (walk_forward_loop ES _ _ [] cfg) as [[[]|x] [hist preds]];
    [|discriminate 1].
  apply rmse_of_ge0.
Qed.

Lemma score_of_key_ok obj n_test cfg :
  is_some (snd (score_of ES obj n_test cfg)) = true ->
  key_ok error_of (score_of ES obj n_test cfg).
Proof.
  unfold key_ok, error_of, float_key, score_of. cbn [snd].
  destruct (walk_forward_error ES obj n_test cfg) as [e|x] eqn:He;
    [|discriminate 1].
  intros _. eapply leb_0_not_nan, walk_forward_error_ge0, He.
Qed.

Lemma present_scores_ok obj n_test cfgs :
  Forall (key_ok error_of)
         (filter (fun r => is_some (snd r)) (map (score_of ES obj n_test) cfgs)).
Proof.
  apply Forall_forall. intros r Hr. apply filter_In in Hr.
  destruct Hr as [Hin Hp]. apply in_map_iff in Hin.
  destruct Hin as (cfg & <- & _). now apply score_of_key_ok.
Qed.

(** A candidate's score in a search, from any world that holds the data. *)
Lemma candidate_scores w data obj n_test cfgs :
  nth_error (heap w) data = Some obj ->
  Forall2 (fun cfg r => fst (score_model ES data n_test cfg false w) = Ok r)
          cfgs (map (score_of ES obj n_test) cfgs).
Proof.
  intros Hd. induction cfgs as [|cfg cfgs IH]; cbn [map]; constructor; auto.
  now apply score_model_result.
Qed.

(** ** The loop, step by step *)

Lemma walk_forward_loop_ok cfg : forall test hist preds r hist' preds',
  walk_forward_loop ES test hist preds cfg = (r, (hist', preds')) ->
  match r with
  | Ok _ =>
      hist' = hist ++ test /\
      exists ys, preds' = preds ++ ys /\ length ys = length test /\
        forall i y, nth_error ys i = Some y ->
                    forecast_of ES (hist ++ firstn i test) cfg = Ok y
  | Raise e =>
      exists i, i < length test /\
        forecast_of ES (hist ++ firstn i test) cfg = Raise e
  end.
Proof.
  induction test as [|x test IH]; intros hist preds r hist' preds' H;
    cbn [walk_forward_loop] in H.
  - injection H as <- <- <-. split; [now rewrite app_nil_r|].
    exists []. repeat split; [now rewrite app_nil_r|].
    intros [|i] y; discriminate 1.
  - destruct (forecast_of ES hist cfg) as [yhat|e] eqn:Hf.
    + apply IH in H. destruct r as [[]|e].
      * destruct H as (-> & ys & -> & Hlen & Hys).
        split; [now rewrite <- app_assoc|].
        exists (yhat :: ys). repeat split.
        -- now rewrite <- app_assoc.
        -- cbn [length]. now rewrite Hlen.
        -- intros [|i] y Hy; cbn [nth_error firstn] in *.
           ++ injection Hy as <-. now rewrite app_nil_r.
           ++ specialize (Hys i y Hy). now rewrite <- app_assoc in Hys.
      * destruct H as (i & Hi & Hr). exists (S i). split; [cbn; lia|].
        cbn [firstn]. now rewrite <- app_assoc in Hr.
    + injection H as <- <- <-. exists 0. split; [cbn; lia|].
      cbn [firstn]. now rewrite app_nil_r.
Qed.

(** The loop completes when every forecast it asks for does. *)
Lemma walk_forward_loop_completes cfg : forall test hist preds,
  (forall i, i < length test ->
             is_raise (forecast_of ES (hist ++ firstn i test) cfg) = false) ->
  is_raise (fst (walk_forward_loop ES test hist preds cfg)) = false.
Proof.
  intros test hist preds H.
  destruct (walk_forward_loop ES test hist preds cfg) as [r [hist' preds']]
    eqn:E.
  apply walk_forward_loop_ok in E. destruct r as [[]|e]; [reflexivity|].
  destruct E as (i & Hi & Hr). specialize (H i Hi). now rewrite Hr in H.
Qed.
End Ranking.

(** ** The split *)

Lemma slice_index_0 len : slice_index len (- 0) = 0.
Proof.
  unfold slice_index. cbn [Z.opp Z.ltb Z.compare].
  now rewrite Z.min_l by lia.
Qed.

(** ** The walk *)

Lemma slice_index_neg len n :
  (0 < n)%Z -> slice_index len (- n) = len - Z.to_nat n.
Proof.
  intros Hn. unfold slice_index.
  destruct (Z.ltb_spec (- n) 0); lia.
Qed.

Lemma walk_forward_prefix_run (ES : ets_model) H out data series n_test cfg k :
  nth_error H data = Some (FloatSeq series) ->
  k <= length (slice_from series (- n_test)) ->
  walk_forward_prefix ES data n_test cfg k (World H out)
  = let train := slice_to series (- n_test) in
    let test := slice_from series (- n_test) in
    let '(r, (hist, preds)) :=
      walk_forward_loop ES (firstn k test) train [] cfg in
    (match r with
     | Ok _ => Ok (S (length H), length H, test)
     | Raise e => Raise e
     end,
     World (H ++ [FloatSeq preds; FloatSeq hist]) out).
Proof.
  intros Hd Hk. cbv zeta.
  assert (Hd' : nth_error (H ++ [FloatSeq []]) data = Some (FloatSeq series)).
  { rewrite nth_error_app1; auto. apply nth_error_Some. congruence. }
  unfold walk_forward_prefix, bind at 1, new_list at 1. cbn [heap stdout].
  unfold bind at 1, train_test_split, bind at 1, read_floats.
  cbn [heap stdout]. rewrite Hd'. unfold ret at 1.
  unfold bind at 1, new_list. cbn [heap stdout].
  rewrite <- app_assoc, length_app, Nat.add_comm. cbn [length app Nat.add].
  unfold bind at 1, range.
  rewrite walk_forward_loop_run by (cbn; lia).
  rewrite skipn_O.
  destruct (walk_forward_loop ES (firstn k (slice_from series (- n_test)))
              (slice_to series (- n_test)) [] cfg) as [[[]|e] [hist preds]];
    reflexivity.
Qed.

(** ** The search *)

Lemma same_key_absent k (r : score) :
  is_some (snd r) = false -> same_key error_of k r = false.
Proof.
  unfold same_key, error_of, float_key. destruct (snd r); [discriminate 1|].
  intros _. rewrite FloatAxioms.eqb_spec.
  change (Prim2SF nan) with S754_nan. reflexivity.
Qed.

Lemma filter_same_key_present k (scores : list score) :
  filter (same_key error_of k) (filter (fun r => is_some (snd r)) scores)
  = filter (same_key error_of k) scores.
Proof.
  induction scores as [|r scores IH]; [reflexivity|]. cbn [filter].
  destruct (is_some (snd r)) eqn:Hr; cbn [filter]; rewrite IH.
  - reflexivity.
  - now rewrite same_key_absent.
Qed.

(** ** The configurations *)

Lemma nth_error_last1 (H : list pyobj) a :
  nth_error (H ++ [a]) (length H) = Some a.
Proof. rewrite nth_error_app2, Nat.sub_diag by lia. reflexivity. Qed.

Lemma store_last1 (H : list pyobj) a c :
  store (length H) c (H ++ [a]) = H ++ [c].
Proof.
  rewrite <- (Nat.add_0_r (length H)) at 1. now rewrite store_app_r.
Qed.

Lemma config_list_append_run H out cs c :
  config_list_append (length H) c (World (H ++ [ConfigSeq cs]) out)
  = (Ok tt, World (H ++ [ConfigSeq (cs ++ [c])]) out).
Proof.
  unfold config_list_append. cbn [heap stdout].
  now rewrite nth_error_last1, store_last1.
Qed.

(** A loop whose body appends [f x] to the list appends [flat_map f xs]. *)
Lemma for_each_appends {A : Type} (body : A -> M unit) (f : A -> list config)
    H out (xs : list A) :
  (forall x cs, body x (World (H ++ [ConfigSeq cs]) out)
                = (Ok tt, World (H ++ [ConfigSeq (cs ++ f x)]) out)) ->
  forall cs, for_each xs body (World (H ++ [ConfigSeq cs]) out)
             = (Ok tt, World (H ++ [ConfigSeq (cs ++ flat_map f xs)]) out).
Proof.
  intros Hb. induction xs as [|x xs IH]; intros cs; cbn [for_each flat_map].
  - now rewrite app_nil_r.
  - unfold bind. rewrite Hb, IH. now rewrite <- app_assoc.
Qed.

Lemma length_flat_map_block {A B : Type} (f : A -> list B) k (l : list A) :
  (forall x, length (f x) = k) -> length (flat_map f l) = length l * k.
Proof.
  intros Hk. induction l as [|a l IH]; [reflexivity|].
  cbn [flat_map length]. rewrite length_app, Hk, IH. lia.
Qed.

Lemma nth_error_flat_map_block {A B : Type} (f : A -> list B) k (l : list A) :
  (forall x, length (f x) = k) ->
  forall i j x, nth_error l i = Some x -> j < k ->
    nth_error (flat_map f l) (i * k + j) = nth_error (f x) j.
Proof.
  intros Hk. induction l as [|a l IH]; intros [|i] j x Hx Hj;
    try discriminate Hx; cbn [flat_map nth_error] in *.
  - injection Hx as ->. rewrite nth_error_app1 by (rewrite Hk; lia).
    reflexivity.
  - rewrite nth_error_app2 by (rewrite Hk; lia).
    rewrite Hk. replace (S i * k + j - k) with (i * k + j) by lia.
    now apply IH.
Qed.

Lemma nth_error_lt {A : Type} (l : list A) i x :
  nth_error l i = Some x -> i < length l.
Proof. intros H. apply nth_error_Some. congruence. Qed.

(** ** The error *)

Lemma measure_rmse_ge0 k actual predicted :
  keeps k (measure_rmse actual predicted) (fun e => (0 <=? e)%float = true).
Proof.
  intros w Hk. split; [now apply keeps_measure_rmse|].
  unfold measure_rmse, bind, read_floats, lift.
  destruct (nth_error (heap w) predicted) as [[xs|cs]|]; try discriminate 1.
  intros e He. apply (rmse_of_ge0 actual xs). unfold rmse_of.
  destruct (mean_squared_error actual xs); exact He.
Qed.

Lemma walk_forward_validation_ge0 (ES : ets_model) k data n_test cfg :
  keeps k (walk_forward_validation ES data n_test cfg)
        (fun e => (0 <=? e)%float = true).
Proof.
  unfold walk_forward_validation.
  eapply keeps_bind; [apply keeps_new_list|]. intros p Hp.
  eapply keeps_bind; [apply keeps_train_test_split|]. intros [train test] _.
  eapply keeps_bind; [apply keeps_new_list|]. intros h Hh.
  eapply keeps_bind;
    [apply keeps_for_each; intros i; now apply keeps_walk_forward_step|].
  intros _ _. eapply keeps_bind; [apply measure_rmse_ge0|].
  intros e He. now apply keeps_ret.
Qed.

(** ** The frame *)

Lemma keeps_walk_forward_prefix (ES : ets_model) k data n_test cfg j :
  keeps k (walk_forward_prefix ES data n_test cfg j)
        (fun r => k <= fst (fst r) /\ k <= snd (fst r)).
Proof.
  unfold walk_forward_prefix.
  eapply keeps_bind; [apply keeps_new_list|]. intros p Hp.
  eapply keeps_bind; [apply keeps_train_test_split|]. intros [train test] _.
  eapply keeps_bind; [apply keeps_new_list|]. intros h Hh.
  eapply keeps_bind;
    [apply keeps_for_each; intros i; now apply keeps_walk_forward_step|].
  intros _ _. apply keeps_ret. cbn [fst snd]. auto.
Qed.

Lemma keeps_unchanged {A : Type} (m : M A) (Q : A -> Prop) w l :
  keeps (length (heap w)) m Q -> l < length (heap w) ->
  nth_error (heap (snd (m w))) l = nth_error (heap w) l.
Proof.
  intros Hk Hl. destruct (Hk w (le_n _)) as [Hp _].
  exact (pres_lookup (length (heap w)) w (snd (m w)) l Hp Hl).
Qed.

(** ** The program on the sample inputs *)

(** The key of a candidate is the text the notebook prints for it. *)
Example str_sample :
  str (Config (Some Mul) false None None true true)
  = "['mul', False, None, None, True, True]".
Proof. reflexivity. Qed.

Example str_seasonal_period :
  str (Config (Some Add) true (Some Mul) (Some 12%Z) false false)
  = "['add', True, 'mul', 12, False, False]".
Proof. reflexivity. Qed.

(** Two test items of five: two forecasts, made from the first three and
    from the first four items. *)
Example walk_forward_sample :
  walk_forward_validation last_value_model 0 2
    (Config None false None None false false) sample_world
  = (Ok (PrimFloat.sqrt 12.5),
     World [FloatSeq sample_series; ConfigSeq sample_configs;
            FloatSeq [4; 7]%float; FloatSeq sample_series] []).
Proof. vm_compute. reflexivity. Qed.

(** The candidate with a multiplicative trend fails and is left out; the
    other two have the same error and keep their order. *)
Example grid_search_sample :
  fst (grid_search picky_model 0 1 2 false [] sample_world)
  = Ok [("['add', True, None, None, False, True]", Some (PrimFloat.sqrt 12.5));
        ("[None, False, None, None, False, False]", Some (PrimFloat.sqrt 12.5))].
Proof. vm_compute. reflexivity. Qed.

(* ===================================================================== *)
(** * 9. The claims                                                       *)
(* ===================================================================== *)

(** C1. For [0 < n_test < len(series)], [walk_forward_validation] splits
    the series into the first [len - n_test] items and the last [n_test]
    ones and runs its loop [n_test] times. When the run reaches step [k]
    (for any [k <= n_test]), the history object holds train followed by
    [test[0..k-1]] (the observations, whatever was forecast) and the
    list of predictions holds [k] items, the [i]-th being the forecast
    made from train followed by [test[0..i-1]]; the run reaches step [k]
    as soon as the [k] forecasts before it succeed. At completion the
    predictions are [n_test] and the history is the whole series; the
    call is its run up to step [n_test] followed by [measure_rmse]. *)
Theorem walk_forward_steps (ES : ets_model) H out data series n_test cfg :
  nth_error H data = Some (FloatSeq series) ->
  (0 < n_test < Z.of_nat (length series))%Z ->
  let n := Z.to_nat n_test in
  let train := firstn (length series - n) series in
  let test := skipn (length series - n) series in
  train_test_split data n_test (World H out) = (Ok (train, test), World H out) /\
  length test = n /\
  (forall k r w',
      k <= n ->
      walk_forward_prefix ES data n_test cfg k (World H out) = (Ok r, w') ->
      r = (S (length H), length H, test) /\
      exists ys,
        heap w' = H ++ [FloatSeq ys; FloatSeq (train ++ firstn k test)] /\
        length ys = k /\
        forall i y, nth_error ys i = Some y ->
                    forecast_of ES (train ++ firstn i test) cfg = Ok y) /\
  (forall k,
      k <= n ->
      (forall i, i < k ->
         is_raise (forecast_of ES (train ++ firstn i test) cfg) = false) ->
      is_raise (fst (walk_forward_prefix ES data n_test cfg k (World H out)))
      = false) /\
  (forall e w',
      walk_forward_validation ES data n_test cfg (World H out) = (Ok e, w') ->
      exists ys,
        heap w' = H ++ [FloatSeq ys; FloatSeq series] /\
        length ys = n /\ length series = length train + n) /\
  walk_forward_validation ES data n_test cfg (World H out)
  = (r <- walk_forward_prefix ES data n_test cfg n ;;
     measure_rmse (snd r) (snd (fst r))) (World H out).
Proof.
  intros Hd Hn n train test.
  assert (Htr : slice_to series (- n_test) = train).
  { unfold slice_to. now rewrite slice_index_neg by lia. }
  assert (Hte : slice_from series (- n_test) = test).
  { unfold slice_from. now rewrite slice_index_neg by lia. }
  assert (Hlen : length test = n).
  { subst test. rewrite length_skipn. lia. }
  assert (Hfirst : forall i k, i < k -> k <= n ->
            firstn i (firstn k test) = firstn i test).
  { intros i k Hi Hk. rewrite firstn_firstn. f_equal. lia. }
  split; [|split; [exact Hlen|split; [|split; [|split]]]].
  - unfold train_test_split, bind, read_floats. cbn [heap]. rewrite Hd.
    unfold ret. now rewrite Htr, Hte.
  - intros k r w' Hk Hrun.
    rewrite walk_forward_prefix_run with (series := series) in Hrun
      by (rewrite ?Hte; auto; lia).
    cbv zeta in Hrun. rewrite Htr, Hte in Hrun.
    destruct (walk_forward_loop ES (firstn k test) train [] cfg)
      as [r0 [hist preds]] eqn:Hloop.
    apply walk_forward_loop_ok in Hloop.
    destruct r0 as [[]|e]; [|discriminate Hrun].
    injection Hrun as <- <-.
    destruct Hloop as (-> & ys & -> & Hys & Hf).
    split; [reflexivity|]. exists ys. cbn [heap app].
    rewrite length_firstn in Hys. repeat split; auto; try lia.
    intros i y Hy. specialize (Hf i y Hy).
    rewrite Hfirst in Hf; auto.
    assert (i < length ys) by (apply nth_error_Some; congruence). lia.
  - intros k Hk Hok.
    rewrite walk_forward_prefix_run with (series := series)
      by (rewrite ?Hte; auto; lia).
    cbv zeta. rewrite Htr, Hte.
    pose proof (walk_forward_loop_completes ES cfg (firstn k test) train [])
      as Hc.
    destruct (walk_forward_loop ES (firstn k test) train [] cfg)
      as [r0 [hist preds]]. cbn [fst] in *.
    assert (Hr0 : is_raise r0 = false).
    { apply Hc. intros i Hi. rewrite length_firstn in Hi.
      rewrite Hfirst by lia. apply Hok. lia. }
    destruct r0; [reflexivity|discriminate Hr0].
  - intros e w' Hrun.
    rewrite walk_forward_validation_run with (series := series) in Hrun
      by exact Hd.
    cbv zeta in Hrun. rewrite Htr, Hte in Hrun.
    destruct (walk_forward_loop ES test train [] cfg)
      as [r0 [hist preds]] eqn:Hloop.
    apply walk_forward_loop_ok in Hloop.
    destruct r0 as [[]|x]; [|discriminate Hrun].
    injection Hrun as _ <-.
    destruct Hloop as (-> & ys & -> & Hys & _).
    exists ys. cbn [heap app]. subst train test.
    rewrite firstn_skipn. repeat split; auto; try lia.
    rewrite length_firstn. lia.
  - rewrite walk_forward_validation_run with (series := series) by exact Hd.
    unfold bind at 1.
    rewrite walk_forward_prefix_run with (series := series)
      by (rewrite ?Hte; auto; lia).
    cbv zeta. rewrite Htr, Hte, <- Hlen, firstn_all.
    destruct (walk_forward_loop ES test train [] cfg)
      as [[[]|e] [hist preds]]; [|reflexivity].
    cbn [fst snd]. unfold measure_rmse, bind, read_floats. cbn [heap].
    rewrite nth_error_last2_0. unfold lift, rmse_of.
    destruct (mean_squared_error test preds) as [mse|e]; [|reflexivity].
    destruct (math_sqrt mse); reflexivity.
Qed.

Lemma walk_forward_steps_witness :
  nth_error (heap sample_world) 0 = Some (FloatSeq sample_series) /\
  (0 < 2 < Z.of_nat (length sample_series))%Z /\
  train_test_split 0 2 sample_world
  = (Ok ([1; 2; 4]%float, [7; 11]%float), sample_world).
Proof.
  assert (H1 : nth_error (heap sample_world) 0 = Some (FloatSeq sample_series))
    by reflexivity.
  assert (H2 : (0 < 2 < Z.of_nat (length sample_series))%Z) by (cbn; lia).
  split; [exact H1|]. split; [exact H2|].
  exact (proj1 (walk_forward_steps last_value_model
                  (heap sample_world) (stdout sample_world) 0 sample_series 2
                  (Config None false None None false false) H1 H2)).
Defined.

(** C2. The list [grid_search] returns holds no score whose error is
    [None]; it is sorted by error, lowest first; it holds exactly the
    candidates' scores that have an error; and the scores of one error
    follow one another as their candidates do in the candidate list (the
    sort is stable). [scores] are the score tuples of the candidates, in
    the order of the candidate list. *)
Theorem grid_search_ranking (ES : ets_model) w data cfg_list series cfgs
    n_test parallel sched :
  nth_error (heap w) data = Some (FloatSeq series) ->
  nth_error (heap w) cfg_list = Some (ConfigSeq cfgs) ->
  exists scores ranked,
    Forall2 (fun cfg r => fst (score_model ES data n_test cfg false w) = Ok r)
            cfgs scores /\
    fst (grid_search ES data cfg_list n_test parallel sched w) = Ok ranked /\
    Forall (fun r => snd r <> None) ranked /\
    StronglySorted (key_le error_of) ranked /\
    Permutation ranked (filter (fun r => is_some (snd r)) scores) /\
    forall k, filter (same_key error_of k) ranked
              = filter (same_key error_of k) scores.
Proof.
  intros Hd Hc.
  exists (map (score_of ES (FloatSeq series) n_test) cfgs).
  eexists. split; [now apply candidate_scores|].
  split; [now apply grid_search_result with (obj := FloatSeq series)
                                             (cfgs := cfgs)|].
  set (present := filter _ _).
  split; [|split; [|split]].
  - apply Forall_forall. intros r Hr.
    apply (Permutation_in _ (sort_by_key_perm _ error_of present)) in Hr.
    subst present. apply filter_In in Hr. destruct Hr as [_ Hr].
    destruct (snd r); [discriminate|discriminate Hr].
  - apply sort_by_key_sorted. apply present_scores_ok.
  - apply sort_by_key_perm.
  - intros k. rewrite sort_by_key_stable. apply filter_same_key_present.
Qed.

Lemma grid_search_ranking_witness :
  nth_error (heap sample_world) 0 = Some (FloatSeq sample_series) /\
  nth_error (heap sample_world) 1 = Some (ConfigSeq sample_configs) /\
  exists scores ranked,
    Forall2 (fun cfg r =>
               fst (score_model picky_model 0 2 cfg false sample_world) = Ok r)
            sample_configs scores /\
    fst (grid_search picky_model 0 1 2 true [[2]; [0]] sample_world)
    = Ok ranked /\
    Forall (fun r => snd r <> None) ranked /\
    StronglySorted (key_le error_of) ranked /\
    Permutation ranked (filter (fun r => is_some (snd r)) scores) /\
    forall k, filter (same_key error_of k) ranked
              = filter (same_key error_of k) scores.
Proof.
  assert (H1 : nth_error (heap sample_world) 0 = Some (FloatSeq sample_series))
    by reflexivity.
  assert (H2 : nth_error (heap sample_world) 1
               = Some (ConfigSeq sample_configs)) by reflexivity.
  split; [exact H1|]. split; [exact H2|].
  exact (grid_search_ranking picky_model sample_world 0 1 sample_series
           sample_configs 2 true [[2]; [0]] H1 H2).
Defined.

(** C3. [exp_smoothing_configs] makes one new list that holds the whole
    Cartesian product of the six domains: 3 x 2 x 3 x [len(seasonal)] x
    2 x 2 items (72 for the default [seasonal]), the configuration
    [[t,d,s,p,b,r]] standing at the place its six indices give in the
    nested order trend, damped, seasonal, period, transform, bias: every
    combination of indices has a place of its own, so nothing is dropped
    or merged. *)
Theorem exp_smoothing_configs_product seasonal w :
  exp_smoothing_configs seasonal w
  = (Ok (length (heap w)),
     World (heap w ++ [ConfigSeq (config_grid seasonal)]) (stdout w)) /\
  length (config_grid seasonal) = 3 * 2 * 3 * length seasonal * 2 * 2 /\
  length (config_grid default_seasonal) = 72 /\
  forall i_t i_d i_s i_p i_b i_r t d s p b r,
    nth_error component_domain i_t = Some t ->
    nth_error flag_domain i_d = Some d ->
    nth_error component_domain i_s = Some s ->
    nth_error seasonal i_p = Some p ->
    nth_error flag_domain i_b = Some b ->
    nth_error flag_domain i_r = Some r ->
    nth_error (config_grid seasonal)
      (((((i_t * 2 + i_d) * 3 + i_s) * length seasonal + i_p) * 2 + i_b) * 2 + i_r)
    = Some (Config t d s p b r).
Proof.
  set (np := length seasonal).
  assert (Lr : forall t d s p b,
             length (flat_map (fun r => [Config t d s p b r]) flag_domain) = 2)
    by reflexivity.
  assert (Lb : forall t d s p,
             length (flat_map (fun b =>
               flat_map (fun r => [Config t d s p b r]) flag_domain)
               flag_domain) = 4) by reflexivity.
  assert (Lp : forall t d s,
             length (flat_map (fun p => flat_map (fun b =>
               flat_map (fun r => [Config t d s p b r]) flag_domain)
               flag_domain) seasonal) = np * 4).
  { intros. now apply length_flat_map_block. }
  assert (Ls : forall t d,
             length (flat_map (fun s => flat_map (fun p => flat_map (fun b =>
               flat_map (fun r => [Config t d s p b r]) flag_domain)
               flag_domain) seasonal) component_domain) = 3 * (np * 4)).
  { intros. rewrite length_flat_map_block with (k := np * 4); auto. }
  assert (Ld : forall t,
             length (flat_map (fun d => flat_map (fun s => flat_map (fun p =>
               flat_map (fun b =>
               flat_map (fun r => [Config t d s p b r]) flag_domain)
               flag_domain) seasonal) component_domain) flag_domain)
             = 2 * (3 * (np * 4))).
  { intros. rewrite length_flat_map_block with (k := 3 * (np * 4)); auto. }
  split; [|split; [|split]].
  - destruct w as [H out]. unfold exp_smoothing_configs, bind at 1.
    unfold new_config_list at 1. cbn [heap stdout]. unfold bind.
    rewrite for_each_appends with
      (f := fun t => flat_map (fun d => flat_map (fun s =>
              flat_map (fun p => flat_map (fun b =>
                flat_map (fun r => [Config t d s p b r]) flag_domain)
              flag_domain) seasonal) component_domain) flag_domain).
    + reflexivity.
    + intros t cs. apply for_each_appends. intros d cs1.
      apply for_each_appends. intros s cs2.
      apply for_each_appends. intros p cs3.
      apply for_each_appends. intros b cs4.
      apply for_each_appends. intros r cs5.
      apply config_list_append_run.
  - unfold config_grid.
    rewrite length_flat_map_block with (k := 2 * (3 * (np * 4))); auto.
    cbn [component_domain length]. lia.
  - reflexivity.
  - intros i_t i_d i_s i_p i_b i_r t d s p b r Ht Hd Hs Hp Hb Hr.
    pose proof (nth_error_lt _ _ _ Hd) as Bd. cbn [length component_domain flag_domain] in Bd.
    pose proof (nth_error_lt _ _ _ Hs) as Bs. cbn [length component_domain flag_domain] in Bs.
    pose proof (nth_error_lt _ _ _ Hp) as Bp. fold np in Bp.
    pose proof (nth_error_lt _ _ _ Hb) as Bb. cbn [length component_domain flag_domain] in Bb.
    pose proof (nth_error_lt _ _ _ Hr) as Br. cbn [length component_domain flag_domain] in Br.
    replace (((((i_t * 2 + i_d) * 3 + i_s) * np + i_p) * 2 + i_b) * 2 + i_r)
      with (i_t * (2 * (3 * (np * 4)))
            + (i_d * (3 * (np * 4))
               + (i_s * (np * 4) + (i_p * 4 + (i_b * 2 + i_r))))) by lia.
    unfold config_grid.
    rewrite nth_error_flat_map_block with (x := t); auto; [|nia].
    rewrite nth_error_flat_map_block with (x := d); auto; [|nia].
    rewrite nth_error_flat_map_block with (x := s); auto; [|nia].
    rewrite nth_error_flat_map_block with (x := p); auto; [|lia].
    rewrite nth_error_flat_map_block with (x := b) (k := 2); auto.
    destruct i_r as [|[|i_r]]; try lia; cbn in Hr |- *; congruence.
Qed.

(** C4. [score_model] lets an exception out exactly when debug mode is on
    and the evaluation raised it. With debug off, whatever the evaluation
    raises is turned into the pair [(key, None)] and nothing is raised;
    with debug on, the exception of the evaluation is raised as it is.
    In both modes a completed evaluation gives [(key, error)]. *)
Theorem score_model_exceptions (ES : ets_model) w data n_test cfg :
  fst (score_model ES data n_test cfg false w)
  = Ok (str cfg,
        match fst (walk_forward_validation ES data n_test cfg w) with
        | Ok e => Some e
        | Raise _ => None
        end) /\
  fst (score_model ES data n_test cfg true w)
  = match fst (walk_forward_validation ES data n_test cfg w) with
    | Ok e => Ok (str cfg, Some e)
    | Raise x => Raise x
    end /\
  forall debug x,
    fst (score_model ES data n_test cfg debug w) = Raise x <->
    debug = true /\
    fst (walk_forward_validation ES data n_test cfg w) = Raise x.
Proof.
  rewrite !score_model_outcome. repeat split.
  - destruct (fst (walk_forward_validation ES data n_test cfg w)); reflexivity.
  - revert H. rewrite score_model_outcome.
    destruct (fst (walk_forward_validation ES data n_test cfg w)),
      debug; try discriminate 1; reflexivity.
  - revert H. rewrite score_model_outcome.
    destruct (fst (walk_forward_validation ES data n_test cfg w)),
      debug; try discriminate 1. intros H. now injection H as ->.
  - intros [-> H]. rewrite score_model_outcome, H. reflexivity.
Qed.

(** C5. With the parallel flag set (whatever the scheduling of the
    workers) and with it unset, [grid_search] returns the same list: the
    same score tuples in the same order. *)
Theorem grid_search_parallel_sequential (ES : ets_model) w data cfg_list
    series cfgs n_test sched sched' :
  nth_error (heap w) data = Some (FloatSeq series) ->
  nth_error (heap w) cfg_list = Some (ConfigSeq cfgs) ->
  fst (grid_search ES data cfg_list n_test true sched w)
  = fst (grid_search ES data cfg_list n_test false sched' w).
Proof.
  intros Hd Hc.
  rewrite !grid_search_result with (obj := FloatSeq series) (cfgs := cfgs);
    auto.
Qed.

Lemma grid_search_parallel_sequential_witness :
  nth_error (heap sample_world) 0 = Some (FloatSeq sample_series) /\
  nth_error (heap sample_world) 1 = Some (ConfigSeq sample_configs) /\
  fst (grid_search picky_model 0 1 2 true [[2; 1]; [0]] sample_world)
  = fst (grid_search picky_model 0 1 2 false [] sample_world).
Proof.
  assert (H1 : nth_error (heap sample_world) 0 = Some (FloatSeq sample_series))
    by reflexivity.
  assert (H2 : nth_error (heap sample_world) 1
               = Some (ConfigSeq sample_configs)) by reflexivity.
  split; [exact H1|]. split; [exact H2|].
  exact (grid_search_parallel_sequential picky_model sample_world 0 1
           sample_series sample_configs 2 [[2; 1]; [0]] [] H1 H2).
Defined.

(** C6 fails as stated: with [n_test] the length of the series, the
    search goes into the evaluation of every candidate and returns a
    list; it raises nothing. *)
Lemma grid_search_no_insufficient_data_error :
  Z.of_nat (length sample_series) = 5%Z /\
  fst (grid_search last_value_model 0 1 5 true [] sample_world) = Ok [] /\
  fst (grid_search last_value_model 0 1 5 true [] sample_world)
  <> Raise (PyExc "InsufficientDataError").
Proof.
  split; [reflexivity|]. split; [vm_compute; reflexivity|].
  vm_compute. discriminate.
Qed.

(** C6, as the program has it. When [n_test >= len(series)] nothing is
    validated and no [InsufficientDataError] is raised: the train
    partition is empty, the test partition is the whole series, every
    candidate is evaluated by the walk-forward loop from an empty
    history, and [grid_search] returns its ranking of the candidates
    whose evaluation completed. *)
Theorem grid_search_short_series (ES : ets_model) w data cfg_list series
    cfgs n_test parallel sched :
  nth_error (heap w) data = Some (FloatSeq series) ->
  nth_error (heap w) cfg_list = Some (ConfigSeq cfgs) ->
  (Z.of_nat (length series) <= n_test)%Z ->
  train_test_split data n_test w = (Ok ([], series), w) /\
  (forall cfg,
      fst (walk_forward_validation ES data n_test cfg w)
      = match walk_forward_loop ES series [] [] cfg with
        | (Ok _, (_, preds)) => rmse_of series preds
        | (Raise e, _) => Raise e
        end) /\
  fst (grid_search ES data cfg_list n_test parallel sched w)
  = Ok (sort_by_key error_of
          (filter (fun r => is_some (snd r))
                  (map (score_of ES (FloatSeq series) n_test) cfgs))).
Proof.
  intros Hd Hc Hn.
  assert (Hi : slice_index (length series) (- n_test) = 0).
  { unfold slice_index. destruct (Z.ltb_spec (- n_test) 0); lia. }
  assert (Htr : slice_to series (- n_test) = []).
  { unfold slice_to. now rewrite Hi. }
  assert (Hte : slice_from series (- n_test) = series).
  { unfold slice_from. now rewrite Hi. }
  split; [|split].
  - unfold train_test_split, bind, read_floats. rewrite Hd.
    unfold ret. now rewrite Htr, Hte.
  - intros cfg.
    rewrite walk_forward_validation_result with (obj := FloatSeq series)
      by exact Hd.
    unfold walk_forward_error. cbv zeta. now rewrite Htr, Hte.
  - now apply grid_search_result.
Qed.

Lemma grid_search_short_series_witness :
  nth_error (heap sample_world) 0 = Some (FloatSeq sample_series) /\
  nth_error (heap sample_world) 1 = Some (ConfigSeq sample_configs) /\
  (Z.of_nat (length sample_series) <= 5)%Z /\
  train_test_split 0 5 sample_world = (Ok ([], sample_series), sample_world).
Proof.
  assert (H1 : nth_error (heap sample_world) 0 = Some (FloatSeq sample_series))
    by reflexivity.
  assert (H2 : nth_error (heap sample_world) 1
               = Some (ConfigSeq sample_configs)) by reflexivity.
  assert (H3 : (Z.of_nat (length sample_series) <= 5)%Z) by (cbn; lia).
  split; [exact H1|]. split; [exact H2|]. split; [exact H3|].
  exact (proj1 (grid_search_short_series last_value_model sample_world 0 1
                  sample_series sample_configs 5 true [] H1 H2 H3)).
Defined.

(** C7 fails as stated: when every candidate fails the search returns
    the empty list, as it does for no candidate at all; it raises
    nothing. *)
Lemma grid_search_no_empty_result_error :
  (forall cfg, In cfg sample_configs ->
     is_raise (fst (walk_forward_validation unstable_model 0 2 cfg
                      sample_world)) = true) /\
  fst (grid_search unstable_model 0 1 2 true [] sample_world) = Ok [] /\
  fst (grid_search unstable_model 0 1 2 true [] sample_world)
  <> Raise (PyExc "EmptyResultError").
Proof.
  split; [|split].
  - intros cfg Hin. destruct cfg as [t d s p b r]. reflexivity.
  - vm_compute. reflexivity.
  - vm_compute. discriminate.
Qed.

(** C7, as the program has it. [grid_search] never raises: a candidate
    whose evaluation raises is left out and every candidate whose
    evaluation completes is in the list returned. When every candidate
    fails the list returned is empty, and no [EmptyResultError] is raised:
    the caller has to test for the empty list. *)
Theorem grid_search_all_fail (ES : ets_model) w data cfg_list series cfgs
    n_test parallel sched :
  nth_error (heap w) data = Some (FloatSeq series) ->
  nth_error (heap w) cfg_list = Some (ConfigSeq cfgs) ->
  exists ranked,
    fst (grid_search ES data cfg_list n_test parallel sched w) = Ok ranked /\
    (forall cfg e,
        In cfg cfgs ->
        fst (walk_forward_validation ES data n_test cfg w) = Ok e ->
        In (str cfg, Some e) ranked) /\
    ((forall cfg,
        In cfg cfgs ->
        is_raise (fst (walk_forward_validation ES data n_test cfg w)) = true) ->
     ranked = []).
Proof.
  intros Hd Hc.
  pose proof (@grid_search_result ES w data cfg_list (FloatSeq series) cfgs
                n_test parallel sched Hd Hc) as Hg.
  set (present := filter _ _) in Hg.
  exists (sort_by_key error_of present). split; [exact Hg|]. split.
  - intros cfg e Hin He.
    apply (Permutation_in _ (Permutation_sym (sort_by_key_perm _ error_of _))).
    subst present. apply filter_In. split; [|reflexivity].
    apply in_map_iff. exists cfg. split; [|exact Hin].
    unfold score_of.
    rewrite <- walk_forward_validation_result with (w := w) (data := data)
      by exact Hd.
    now rewrite He.
  - intros Hall.
    assert (Hnil : present = []).
    { subst present. clear Hg Hc.
      induction cfgs as [|cfg cfgs' IH]; [reflexivity|].
      cbn [map filter].
      assert (Hf : is_some (snd (score_of ES (FloatSeq series) n_test cfg))
                   = false).
      { specialize (Hall cfg (or_introl eq_refl)).
        rewrite walk_forward_validation_result with (obj := FloatSeq series)
          in Hall by exact Hd.
        unfold score_of. cbn [snd].
        destruct (walk_forward_error ES (FloatSeq series) n_test cfg);
          [discriminate Hall|reflexivity]. }
      rewrite Hf. apply IH. intros c Hcin. apply Hall. now right. }
    now rewrite Hnil.
Qed.

Lemma grid_search_all_fail_witness :
  nth_error (heap sample_world) 0 = Some (FloatSeq sample_series) /\
  nth_error (heap sample_world) 1 = Some (ConfigSeq sample_configs) /\
  exists ranked,
    fst (grid_search picky_model 0 1 2 false [] sample_world) = Ok ranked /\
    (forall cfg e,
        In cfg sample_configs ->
        fst (walk_forward_validation picky_model 0 2 cfg sample_world) = Ok e ->
        In (str cfg, Some e) ranked) /\
    ((forall cfg,
        In cfg sample_configs ->
        is_raise (fst (walk_forward_validation picky_model 0 2 cfg
                         sample_world)) = true) ->
     ranked = []).
Proof.
  assert (H1 : nth_error (heap sample_world) 0 = Some (FloatSeq sample_series))
    by reflexivity.
  assert (H2 : nth_error (heap sample_world) 1
               = Some (ConfigSeq sample_configs)) by reflexivity.
  split; [exact H1|]. split; [exact H2|].
  exact (grid_search_all_fail picky_model sample_world 0 1 sample_series
           sample_configs 2 false [] H1 H2).
Defined.

(** C8. Whenever the evaluation of a configuration completes, the error
    [walk_forward_validation] returns (the square root [measure_rmse]
    takes of the mean squared error) is a number that is not negative. *)
Theorem walk_forward_validation_nonneg (ES : ets_model) w data n_test cfg e :
  fst (walk_forward_validation ES data n_test cfg w) = Ok e ->
  (0 <=? e)%float = true /\ is_nan e = false.
Proof.
  intros He.
  destruct (walk_forward_validation_ge0 ES 0 data n_test cfg w (Nat.le_0_l _))
    as [_ H].
  specialize (H e He). split; [exact H|now apply leb_0_not_nan].
Qed.

Lemma walk_forward_validation_nonneg_witness :
  exists e,
    fst (walk_forward_validation last_value_model 0 2
           (Config None false None None false false) sample_world) = Ok e /\
    (0 <=? e)%float = true.
Proof.
  eexists. 
  assert (H : fst (walk_forward_validation last_value_model 0 2
           (Config None false None None false false) sample_world)
              = Ok ?[e]) by (vm_compute; reflexivity).
  split; [exact H|].
  exact (proj1 (walk_forward_validation_nonneg last_value_model sample_world 0 2
           (Config None false None None false false) _ H)).
Defined.

(** C9. [walk_forward_validation], [score_model] and [grid_search] leave
    every object the caller holds as it was: the data sequence and the
    candidate list among them. The history (and the list of predictions)
    is an object the evaluation creates: its reference is none of the
    caller's. *)
Theorem inputs_unchanged (ES : ets_model) w data cfg_list n_test cfg debug
    parallel sched l :
  l < length (heap w) ->
  nth_error (heap (snd (walk_forward_validation ES data n_test cfg w))) l
  = nth_error (heap w) l /\
  nth_error (heap (snd (score_model ES data n_test cfg debug w))) l
  = nth_error (heap w) l /\
  nth_error (heap (snd (grid_search ES data cfg_list n_test parallel sched w))) l
  = nth_error (heap w) l /\
  forall k history predictions test w',
    walk_forward_prefix ES data n_test cfg k w
    = (Ok (history, predictions, test), w') ->
    length (heap w) <= history /\ length (heap w) <= predictions.
Proof.
  intros Hl. repeat split.
  - eapply keeps_unchanged; [apply keeps_walk_forward_validation|exact Hl].
  - eapply keeps_unchanged; [apply keeps_score_model|exact Hl].
  - eapply keeps_unchanged; [apply keeps_grid_search|exact Hl].
  - destruct (keeps_walk_forward_prefix ES (length (heap w)) data n_test cfg k
                w (le_n _)) as [_ HQ].
    rewrite H in HQ. exact (proj1 (HQ _ eq_refl)).
  - destruct (keeps_walk_forward_prefix ES (length (heap w)) data n_test cfg k
                w (le_n _)) as [_ HQ].
    rewrite H in HQ. exact (proj2 (HQ _ eq_refl)).
Qed.

Lemma inputs_unchanged_witness :
  0 < length (heap sample_world) /\
  nth_error
    (heap (snd (grid_search last_value_model 0 1 2 false [] sample_world))) 0
  = Some (FloatSeq sample_series).
Proof.
  assert (H : 0 < length (heap sample_world)) by (cbn; lia).
  split; [exact H|].
  exact (proj1 (proj2 (proj2
           (inputs_unchanged last_value_model sample_world 0 1 2
              (Config None false None None false false) false false [] 0 H)))).
Defined.

(** C10. For a non-empty data sequence, [train_test_split(data, 0)]
    returns an empty train partition and the whole sequence as the test
    partition ([data[:-0]] is [data[:0]], [data[-0:]] is [data[0:]]); that
    is not the split with a full train and an empty test partition. The
    call itself changes nothing in the store. *)
Theorem train_test_split_zero w data xs :
  nth_error (heap w) data = Some (FloatSeq xs) ->
  xs <> [] ->
  train_test_split data 0 w = (Ok ([], xs), w) /\
  (@nil float, xs) <> (xs, []).
Proof.
  intros Hd Hne. split.
  - unfold train_test_split, bind, read_floats. rewrite Hd.
    unfold ret, slice_to, slice_from. rewrite slice_index_0. reflexivity.
  - intros E. injection E as E _. now symmetry in E.
Qed.

Lemma train_test_split_zero_witness :
  nth_error (heap sample_world) 0 = Some (FloatSeq sample_series) /\
  sample_series <> [] /\
  train_test_split 0 0 sample_world = (Ok ([], sample_series), sample_world).
Proof.
  assert (H1 : nth_error (heap sample_world) 0 = Some (FloatSeq sample_series))
    by reflexivity.
  assert (H2 : sample_series <> []) by discriminate.
  split; [exact H1|]. split; [exact H2|].
  exact (proj1 (train_test_split_zero sample_world 0 sample_series H1 H2)).
Defined.

(* ===================================================================== *)
(** * 10. Further properties of the program                               *)
(* ===================================================================== *)

(** ** Helpers *)

Lemma train_test_split_run w data xs n_test :
  nth_error (heap w) data = Some (FloatSeq xs) ->
  train_test_split data n_test w
  = (Ok (slice_to xs (- n_test), slice_from xs (- n_test)), w).
Proof.
  intros Hd. unfold train_test_split, bind, read_floats. now rewrite Hd.
Qed.

Lemma firstn_min_length {A : Type} k (l : list A) :
  firstn (Nat.min k (length l)) l = firstn k l.
Proof.
  destruct (Nat.le_gt_cases k (length l)).
  - now rewrite Nat.min_l.
  - rewrite Nat.min_r by lia. now rewrite firstn_all, firstn_all2 by lia.
Qed.

Lemma skipn_min_length {A : Type} k (l : list A) :
  skipn (Nat.min k (length l)) l = skipn k l.
Proof.
  destruct (Nat.le_gt_cases k (length l)).
  - now rewrite Nat.min_l.
  - rewrite Nat.min_r by lia. now rewrite skipn_all, skipn_all2 by lia.
Qed.

Lemma slice_index_nonneg len i :
  (0 <= i)%Z -> slice_index len i = Nat.min (Z.to_nat i) len.
Proof.
  intros Hi. unfold slice_index. destruct (Z.ltb_spec i 0); lia.
Qed.

Lemma slice_index_beyond len n :
  (Z.of_nat len <= n)%Z -> slice_index len (- n) = 0.
Proof.
  intros Hn. unfold slice_index. destruct (Z.ltb_spec (- n) 0); lia.
Qed.

(** No candidate has a score: nothing is left to rank. *)
Lemma filter_present_nil (f : config -> score) cfgs :
  (forall cfg, In cfg cfgs -> snd (f cfg) = None) ->
  filter (fun r : score => is_some (snd r)) (map f cfgs) = [].
Proof.
  induction cfgs as [|cfg cfgs IH]; intros H; [reflexivity|].
  cbn [map filter]. rewrite (H cfg (or_introl eq_refl)). cbn [is_some].
  apply IH. intros c Hc. apply H. now right.
Qed.

Lemma walk_forward_loop_length (ES : ets_model) cfg :
  forall test hist preds hist' preds',
    walk_forward_loop ES test hist preds cfg = (Ok tt, (hist', preds')) ->
    length preds' = length preds + length test.
Proof.
  intros test hist preds hist' preds' H.
  apply walk_forward_loop_ok in H. destruct H as (_ & ys & -> & Hl & _).
  rewrite length_app. lia.
Qed.

(** ** The split, for every [n_test] *)

(** X1. Whatever [n_test] is (zero, negative or beyond the length
    included), [train_test_split] cuts the data at one place: the train
    partition followed by the test partition is the data, nothing lost
    and nothing twice. *)
Theorem train_test_split_partition w data xs n_test :
  nth_error (heap w) data = Some (FloatSeq xs) ->
  exists train test,
    train_test_split data n_test w = (Ok (train, test), w) /\
    train ++ test = xs.
Proof.
  intros Hd. exists (slice_to xs (- n_test)), (slice_from xs (- n_test)).
  split; [now apply train_test_split_run|].
  unfold slice_to, slice_from. apply firstn_skipn.
Qed.

Lemma train_test_split_partition_witness :
  nth_error (heap sample_world) 0 = Some (FloatSeq sample_series) /\
  exists train test,
    train_test_split 0 (-7) sample_world = (Ok (train, test), sample_world) /\
    train ++ test = sample_series.
Proof.
  assert (H : nth_error (heap sample_world) 0 = Some (FloatSeq sample_series))
    by reflexivity.
  split; [exact H|].
  exact (train_test_split_partition sample_world 0 sample_series (-7) H).
Defined.

(** X2. A negative [n_test] swaps the roles: the train partition is the
    first [-n_test] items and the test partition is what follows them
    (all the data is train, and test is empty, once [-n_test] reaches the
    length). *)
Theorem train_test_split_negative w data xs n_test :
  nth_error (heap w) data = Some (FloatSeq xs) ->
  (n_test < 0)%Z ->
  train_test_split data n_test w
  = (Ok (firstn (Z.to_nat (- n_test)) xs, skipn (Z.to_nat (- n_test)) xs), w).
Proof.
  intros Hd Hn. rewrite train_test_split_run with (xs := xs) by exact Hd.
  unfold slice_to, slice_from. rewrite slice_index_nonneg by lia.
  now rewrite firstn_min_length, skipn_min_length.
Qed.

Lemma train_test_split_negative_witness :
  nth_error (heap sample_world) 0 = Some (FloatSeq sample_series) /\
  (-2 < 0)%Z /\
  train_test_split 0 (-2) sample_world
  = (Ok ([1; 2]%float, [4; 7; 11]%float), sample_world).
Proof.
  assert (H : nth_error (heap sample_world) 0 = Some (FloatSeq sample_series))
    by reflexivity.
  assert (H' : (-2 < 0)%Z) by lia.
  split; [exact H|]. split; [exact H'|].
  exact (train_test_split_negative sample_world 0 sample_series (-2) H H').
Defined.

(** ** Evaluations at the edges *)

(** X3. [n_test = 0] does not mean "no test": the evaluation is the one
    of any [n_test >= len(data)], the whole series forecast item by item
    from an empty history. The two calls return the same outcome and leave
    the same store. *)
Theorem walk_forward_validation_zero_test (ES : ets_model) w data xs n cfg :
  nth_error (heap w) data = Some (FloatSeq xs) ->
  (Z.of_nat (length xs) <= n)%Z ->
  walk_forward_validation ES data 0 cfg w
  = walk_forward_validation ES data n cfg w.
Proof.
  intros Hd Hn. destruct w as [H out]. cbn [heap] in Hd.
  rewrite !walk_forward_validation_run with (series := xs) by exact Hd.
  cbv zeta. unfold slice_to, slice_from.
  now rewrite slice_index_0, slice_index_beyond by exact Hn.
Qed.

Lemma walk_forward_validation_zero_test_witness :
  nth_error (heap sample_world) 0 = Some (FloatSeq sample_series) /\
  (Z.of_nat (length sample_series) <= 9)%Z /\
  walk_forward_validation last_value_model 0 0
    (Config None false None None false false) sample_world
  = walk_forward_validation last_value_model 0 9
      (Config None false None None false false) sample_world.
Proof.
  assert (H : nth_error (heap sample_world) 0 = Some (FloatSeq sample_series))
    by reflexivity.
  assert (H' : (Z.of_nat (length sample_series) <= 9)%Z) by (cbn; lia).
  split; [exact H|]. split; [exact H'|].
  exact (walk_forward_validation_zero_test last_value_model sample_world 0
           sample_series 9 (Config None false None None false false) H H').
Defined.

(** ** Helpers: what makes an evaluation fail *)

Lemma mean_squared_error_empty : mean_squared_error [] [] = Raise ValueError.
Proof. reflexivity. Qed.

Lemma mean_squared_error_not_finite y_true y_pred :
  forallb is_finite y_true && forallb is_finite y_pred = false ->
  is_raise (mean_squared_error y_true y_pred) = true.
Proof.
  intros H. unfold mean_squared_error. cbv zeta.
  destruct (negb (length y_true =? length y_pred)); [reflexivity|].
  now rewrite H.
Qed.

Lemma rmse_of_not_finite y_true y_pred :
  forallb is_finite y_true && forallb is_finite y_pred = false ->
  is_raise (rmse_of y_true y_pred) = true.
Proof.
  intros H. apply mean_squared_error_not_finite in H. unfold rmse_of.
  destruct (mean_squared_error y_true y_pred); [discriminate H|reflexivity].
Qed.

Lemma forallb_nth_false {A : Type} (f : A -> bool) l i x :
  nth_error l i = Some x -> f x = false -> forallb f l = false.
Proof.
  intros Hx Hf. destruct (forallb f l) eqn:E; [|reflexivity].
  rewrite forallb_forall in E. rewrite <- Hf. symmetry. apply E.
  eapply nth_error_In, Hx.
Qed.

(** The score of a candidate whose evaluation raises. *)
Lemma score_of_raise (ES : ets_model) obj n_test cfg :
  is_raise (walk_forward_error ES obj n_test cfg) = true ->
  score_of ES obj n_test cfg = (str cfg, None).
Proof.
  unfold score_of. destruct (walk_forward_error ES obj n_test cfg);
    [discriminate 1|reflexivity].
Qed.

Lemma walk_forward_error_bad_forecast (ES : ets_model) xs n_test cfg i y :
  i < length (slice_from xs (- n_test)) ->
  forecast_of ES (slice_to xs (- n_test)
                  ++ firstn i (slice_from xs (- n_test))) cfg = Ok y ->
  is_finite y = false ->
  is_raise (walk_forward_error ES (FloatSeq xs) n_test cfg) = true.
Proof.
  intros Hi Hf Hy. unfold walk_forward_error. cbv zeta.
  destruct (walk_forward_loop ES (slice_from xs (- n_test))
              (slice_to xs (- n_test)) [] cfg) as [r [hist preds]] eqn:Hl.
  apply walk_forward_loop_ok in Hl. destruct r as [[]|e]; [|reflexivity].
  destruct Hl as (_ & ys & -> & Hlen & Hys). cbn [app].
  apply rmse_of_not_finite.
  destruct (nth_error ys i) as [y'|] eqn:Hn.
  - pose proof (Hys i y' Hn) as Hf'. rewrite Hf in Hf'. injection Hf' as <-.
    rewrite (forallb_nth_false is_finite ys i y Hn Hy). apply andb_false_r.
  - apply nth_error_None in Hn. lia.
Qed.

Lemma walk_forward_error_bad_test (ES : ets_model) xs n_test cfg :
  forallb is_finite (slice_from xs (- n_test)) = false ->
  is_raise (walk_forward_error ES (FloatSeq xs) n_test cfg) = true.
Proof.
  intros Hx. unfold walk_forward_error. cbv zeta.
  destruct (walk_forward_loop ES (slice_from xs (- n_test))
              (slice_to xs (- n_test)) [] cfg) as [[[]|e] [hist preds]];
    [|reflexivity].
  apply rmse_of_not_finite. now rewrite Hx.
Qed.

Lemma walk_forward_error_no_test (ES : ets_model) xs n_test cfg :
  slice_from xs (- n_test) = [] ->
  walk_forward_error ES (FloatSeq xs) n_test cfg = Raise ValueError.
Proof.
  intros Ht. unfold walk_forward_error. cbv zeta. rewrite Ht. reflexivity.
Qed.

Lemma slice_from_empty_test {A : Type} (xs : list A) n_test :
  xs = [] \/ (n_test <= - Z.of_nat (length xs))%Z ->
  slice_from xs (- n_test) = [].
Proof.
  intros [->|Hn]; unfold slice_from; [apply skipn_nil|].
  rewrite slice_index_nonneg by lia. apply skipn_all2. lia.
Qed.

(** The ranking when every evaluation raises. *)
Lemma grid_search_all_raise (ES : ets_model) w data cfg_list xs cfgs n_test
    parallel sched :
  nth_error (heap w) data = Some (FloatSeq xs) ->
  nth_error (heap w) cfg_list = Some (ConfigSeq cfgs) ->
  (forall cfg, is_raise (walk_forward_error ES (FloatSeq xs) n_test cfg)
               = true) ->
  fst (grid_search ES data cfg_list n_test parallel sched w) = Ok [].
Proof.
  intros Hd Hc Hall.
  rewrite grid_search_result with (obj := FloatSeq xs) (cfgs := cfgs)
    by assumption.
  rewrite filter_present_nil; [reflexivity|].
  intros cfg _. now rewrite score_of_raise.
Qed.

(** X4. With no item in the test partition (an empty series, or a
    negative [n_test] that takes the whole series as train) there is
    nothing to average: every evaluation raises [ValueError], every
    candidate is scored [None], and the search returns an empty list. *)
Theorem empty_test_partition (ES : ets_model) w data cfg_list xs cfgs n_test
    cfg parallel sched :
  nth_error (heap w) data = Some (FloatSeq xs) ->
  nth_error (heap w) cfg_list = Some (ConfigSeq cfgs) ->
  xs = [] \/ (n_test <= - Z.of_nat (length xs))%Z ->
  fst (walk_forward_validation ES data n_test cfg w) = Raise ValueError /\
  fst (score_model ES data n_test cfg false w) = Ok (str cfg, None) /\
  fst (grid_search ES data cfg_list n_test parallel sched w) = Ok [].
Proof.
  intros Hd Hc Hn. apply slice_from_empty_test in Hn.
  assert (He : forall c, walk_forward_error ES (FloatSeq xs) n_test c
                         = Raise ValueError)
    by (intros c; now apply walk_forward_error_no_test).
  split; [|split].
  - rewrite walk_forward_validation_result with (obj := FloatSeq xs)
      by exact Hd. apply He.
  - rewrite score_model_result with (obj := FloatSeq xs) by exact Hd.
    f_equal. apply score_of_raise. now rewrite He.
  - apply grid_search_all_raise with (xs := xs) (cfgs := cfgs); auto.
    intros c. now rewrite He.
Qed.

Lemma empty_test_partition_witness :
  nth_error (heap sample_world) 0 = Some (FloatSeq sample_series) /\
  nth_error (heap sample_world) 1 = Some (ConfigSeq sample_configs) /\
  (sample_series = [] \/ (-5 <= - Z.of_nat (length sample_series))%Z) /\
  fst (grid_search last_value_model 0 1 (-5) true [] sample_world) = Ok [].
Proof.
  assert (H1 : nth_error (heap sample_world) 0 = Some (FloatSeq sample_series))
    by reflexivity.
  assert (H2 : nth_error (heap sample_world) 1
               = Some (ConfigSeq sample_configs)) by reflexivity.
  assert (H3 : sample_series = []
               \/ (-5 <= - Z.of_nat (length sample_series))%Z)
    by (right; apply Z.leb_le; reflexivity).
  split; [exact H1|]. split; [exact H2|]. split; [exact H3|].
  exact (proj2 (proj2 (empty_test_partition last_value_model sample_world 0 1
           sample_series sample_configs (-5)
           (Config None false None None false false) true [] H1 H2 H3))).
Defined.

(** X5. A candidate one of whose forecasts is a NaN or an infinity gets
    no score: its evaluation ends in the [ValueError] of
    [mean_squared_error] (if no fit raised before), and [score_model]
    returns [(key, None)] for it. *)
Theorem nonfinite_forecast_unscored (ES : ets_model) w data xs n_test cfg i y :
  nth_error (heap w) data = Some (FloatSeq xs) ->
  i < length (slice_from xs (- n_test)) ->
  forecast_of ES (slice_to xs (- n_test)
                  ++ firstn i (slice_from xs (- n_test))) cfg = Ok y ->
  is_finite y = false ->
  is_raise (fst (walk_forward_validation ES data n_test cfg w)) = true /\
  fst (score_model ES data n_test cfg false w) = Ok (str cfg, None).
Proof.
  intros Hd Hi Hf Hy.
  pose proof (walk_forward_error_bad_forecast ES xs n_test cfg i y Hi Hf Hy)
    as He.
  split.
  - now rewrite walk_forward_validation_result with (obj := FloatSeq xs).
  - rewrite score_model_result with (obj := FloatSeq xs) by exact Hd.
    f_equal. now apply score_of_raise.
Qed.

Lemma nonfinite_forecast_unscored_witness :
  nth_error (heap sample_world) 0 = Some (FloatSeq sample_series) /\
  1 < length (slice_from sample_series (- 2)) /\
  is_finite PrimFloat.nan = false /\
  fst (score_model nan_model 0 2 (Config None false None None false false)
         false sample_world)
  = Ok ("[None, False, None, None, False, False]", None).
Proof.
  assert (H1 : nth_error (heap sample_world) 0 = Some (FloatSeq sample_series))
    by reflexivity.
  assert (H2 : 1 < length (slice_from sample_series (- 2)))
    by (apply Nat.ltb_lt; reflexivity).
  assert (H3 : forecast_of nan_model
                 (slice_to sample_series (- 2)
                  ++ firstn 1 (slice_from sample_series (- 2)))
                 (Config None false None None false false)
               = Ok PrimFloat.nan) by reflexivity.
  assert (H4 : is_finite PrimFloat.nan = false) by reflexivity.
  split; [exact H1|]. split; [exact H2|]. split; [exact H4|].
  exact (proj2 (nonfinite_forecast_unscored nan_model sample_world 0
           sample_series 2 (Config None false None None false false) 1
           PrimFloat.nan H1 H2 H3 H4)).
Defined.

(** X6. One NaN or infinity among the test items (a missing value in the
    held-out part of the data) makes every evaluation fail, whatever the
    forecaster and the candidates: every candidate is scored [None] and
    the search returns an empty list. *)
Theorem nonfinite_test_data (ES : ets_model) w data cfg_list xs cfgs n_test
    parallel sched :
  nth_error (heap w) data = Some (FloatSeq xs) ->
  nth_error (heap w) cfg_list = Some (ConfigSeq cfgs) ->
  forallb is_finite (slice_from xs (- n_test)) = false ->
  (forall cfg, fst (score_model ES data n_test cfg false w)
               = Ok (str cfg, None)) /\
  fst (grid_search ES data cfg_list n_test parallel sched w) = Ok [].
Proof.
  intros Hd Hc Hx.
  assert (He : forall c,
             is_raise (walk_forward_error ES (FloatSeq xs) n_test c) = true)
    by (intros c; now apply walk_forward_error_bad_test).
  split.
  - intros cfg. rewrite score_model_result with (obj := FloatSeq xs)
      by exact Hd.
    f_equal. now apply score_of_raise.
  - now apply grid_search_all_raise with (xs := xs) (cfgs := cfgs).
Qed.

Lemma nonfinite_test_data_witness :
  nth_error (heap gappy_world) 0 = Some (FloatSeq gappy_series) /\
  nth_error (heap gappy_world) 1 = Some (ConfigSeq sample_configs) /\
  forallb is_finite (slice_from gappy_series (- 2)) = false /\
  fst (grid_search last_value_model 0 1 2 true [] gappy_world) = Ok [].
Proof.
  assert (H1 : nth_error (heap gappy_world) 0 = Some (FloatSeq gappy_series))
    by reflexivity.
  assert (H2 : nth_error (heap gappy_world) 1
               = Some (ConfigSeq sample_configs)) by reflexivity.
  assert (H3 : forallb is_finite (slice_from gappy_series (- 2)) = false)
    by reflexivity.
  split; [exact H1|]. split; [exact H2|]. split; [exact H3|].
  exact (proj2 (nonfinite_test_data last_value_model gappy_world 0 1
           gappy_series sample_configs 2 true [] H1 H2 H3)).
Defined.

(** ** Helpers: the error of a perfect forecast *)

Lemma SFsub_self x : sf_finite x -> SFsub prec emax x x = S754_zero false.
Proof.
  destruct x as [s|s| |s m e]; intros Hx; simpl in Hx; try tauto;
    unfold SFsub.
  - destruct s; reflexivity.
  - cbv zeta. now rewrite Z.sub_diag.
Qed.

Lemma squared_error_self a :
  is_finite a = true -> Prim2SF ((a - a) * (a - a))%float = S754_zero false.
Proof.
  intros Ha. rewrite FloatAxioms.mul_spec, FloatAxioms.sub_spec.
  unfold SF64sub. rewrite SFsub_self by now apply is_finite_spec.
  reflexivity.
Qed.

Lemma squared_errors_self xs :
  forallb is_finite xs = true ->
  Forall (fun x => Prim2SF x = S754_zero false) (squared_errors xs xs).
Proof.
  induction xs as [|a xs IH]; intros H; cbn [squared_errors]; constructor;
    cbn [forallb] in H; apply andb_true_iff in H.
  - now apply squared_error_self.
  - now apply IH.
Qed.

Lemma float_sum_zero xs :
  Forall (fun x => Prim2SF x = S754_zero false) xs ->
  Prim2SF (float_sum xs) = S754_zero false.
Proof.
  apply float_sum_invariant with (P := fun x => Prim2SF x = S754_zero false).
  - reflexivity.
  - intros a b Ha Hb. rewrite FloatAxioms.add_spec. now rewrite Ha, Hb.
Qed.

Lemma mean_squared_error_self xs :
  xs <> [] -> (Z.of_nat (length xs) < 2 ^ 63)%Z ->
  forallb is_finite xs = true ->
  exists mse, mean_squared_error xs xs = Ok mse /\
              Prim2SF mse = S754_zero false.
Proof.
  intros Hne Hb Hf. unfold mean_squared_error. cbv zeta.
  rewrite Nat.eqb_refl, Hf. cbn [negb andb].
  destruct (length xs =? 0) eqn:Hn.
  { apply Nat.eqb_eq, length_zero_iff_nil in Hn. contradiction. }
  apply Nat.eqb_neq in Hn.
  destruct (2 ^ 63 <=? Z.of_nat (length xs))%Z eqn:Hc;
    [apply Z.leb_le in Hc; lia|].
  eexists. split; [reflexivity|].
  destruct (float_of_len_finite (length xs)) as (m & e & Hm); try lia.
  rewrite FloatAxioms.div_spec, Hm.
  rewrite float_sum_zero; [reflexivity|].
  now apply squared_errors_self.
Qed.

Lemma rmse_of_self xs :
  xs <> [] -> (Z.of_nat (length xs) < 2 ^ 63)%Z ->
  forallb is_finite xs = true ->
  rmse_of xs xs = Ok 0%float.
Proof.
  intros Hne Hb Hf.
  destruct (mean_squared_error_self xs Hne Hb Hf) as (mse & Hm & Hz).
  unfold rmse_of. rewrite Hm. unfold math_sqrt.
  rewrite FloatAxioms.ltb_spec, Hz. cbn [SFltb SFcompare].
  change (Prim2SF 0) with (S754_zero false). cbn.
  f_equal. apply Prim2SF_inj. rewrite FloatAxioms.sqrt_spec, Hz. reflexivity.
Qed.

(** The loop when every forecast is the observation that follows. *)
Lemma walk_forward_loop_perfect (ES : ets_model) cfg :
  forall test hist preds,
    (forall i x, nth_error test i = Some x ->
                 forecast_of ES (hist ++ firstn i test) cfg = Ok x) ->
    walk_forward_loop ES test hist preds cfg
    = (Ok tt, (hist ++ test, preds ++ test)).
Proof.
  induction test as [|x test IH]; intros hist preds H;
    cbn [walk_forward_loop].
  - now rewrite !app_nil_r.
  - pose proof (H 0 x eq_refl) as H0. cbn [firstn] in H0.
    rewrite app_nil_r in H0. rewrite H0.
    rewrite IH.
    + now rewrite <- !app_assoc.
    + intros i y Hy. rewrite <- app_assoc. exact (H (S i) y Hy).
Qed.

(** X7. A forecaster that is right at every step scores exactly [0.0]:
    when each forecast equals the observation that follows (the test
    items being finite numbers, and one at least), the error
    [walk_forward_validation] returns is [0.0]. *)
Theorem perfect_forecast_zero_error (ES : ets_model) w data xs n_test cfg :
  nth_error (heap w) data = Some (FloatSeq xs) ->
  slice_from xs (- n_test) <> [] ->
  (Z.of_nat (length xs) < 2 ^ 63)%Z ->
  forallb is_finite (slice_from xs (- n_test)) = true ->
  (forall i x,
      nth_error (slice_from xs (- n_test)) i = Some x ->
      forecast_of ES (slice_to xs (- n_test)
                      ++ firstn i (slice_from xs (- n_test))) cfg = Ok x) ->
  fst (walk_forward_validation ES data n_test cfg w) = Ok 0%float.
Proof.
  intros Hd Hne Hb Hf Hp.
  rewrite walk_forward_validation_result with (obj := FloatSeq xs) by exact Hd.
  unfold walk_forward_error. cbv zeta.
  rewrite walk_forward_loop_perfect by exact Hp. cbn [app].
  apply rmse_of_self; auto.
  unfold slice_from. rewrite length_skipn. lia.
Qed.

Lemma perfect_forecast_zero_error_witness :
  nth_error (heap flat_world) 0 = Some (FloatSeq flat_series) /\
  fst (walk_forward_validation last_value_model 0 2
         (Config None false None None false false) flat_world) = Ok 0%float.
Proof.
  assert (H1 : nth_error (heap flat_world) 0 = Some (FloatSeq flat_series))
    by reflexivity.
  assert (H2 : slice_from flat_series (- 2) <> []) by discriminate.
  assert (H3 : (Z.of_nat (length flat_series) < 2 ^ 63)%Z) by reflexivity.
  assert (H4 : forallb is_finite (slice_from flat_series (- 2)) = true)
    by reflexivity.
  assert (H5 : forall i x,
             nth_error (slice_from flat_series (- 2)) i = Some x ->
             forecast_of last_value_model
               (slice_to flat_series (- 2)
                ++ firstn i (slice_from flat_series (- 2)))
               (Config None false None None false false) = Ok x).
  { intros [|[|[|i]]] x Hx; vm_compute in Hx; try discriminate Hx;
      injection Hx as <-; reflexivity. }
  split; [exact H1|].
  exact (perfect_forecast_zero_error last_value_model flat_world 0 flat_series
           2 (Config None false None None false false) H1 H2 H3 H4 H5).
Defined.

(** ** The key of a configuration *)

Lemma append_comma_inj s : forall s' r r',
  no_comma s = true -> no_comma s' = true ->
  (s ++ String "," r)%string = (s' ++ String "," r')%string ->
  s = s' /\ r = r'.
Proof.
  induction s as [|c s IH]; intros [|c' s'] r r' Hs Hs' E; cbn in *.
  - now injection E.
  - injection E as <- _. now rewrite Ascii.eqb_refl in Hs'.
  - injection E as -> _. now rewrite Ascii.eqb_refl in Hs.
  - apply andb_prop in Hs, Hs'. injection E as <- E.
    destruct (IH s' r r' (proj2 Hs) (proj2 Hs') E) as [-> ->]. auto.
Qed.

Lemma no_comma_repr_component c : no_comma (repr_component c) = true.
Proof. now destruct c as [[|]|]. Qed.

Lemma no_comma_repr_bool b : no_comma (repr_bool b) = true.
Proof. now destruct b. Qed.

Lemma no_comma_string_of_uint d :
  no_comma (NilEmpty.string_of_uint d) = true.
Proof. induction d; cbn; auto. Qed.

Lemma no_comma_repr_int p : no_comma (repr_int p) = true.
Proof.
  destruct p as [z|]; [|reflexivity]. unfold repr_int.
  destruct (Z.to_int z) as [d|d]; cbn;
    destruct d; try reflexivity; apply no_comma_string_of_uint.
Qed.

Lemma repr_component_inj c c' : repr_component c = repr_component c' -> c = c'.
Proof. destruct c as [[|]|], c' as [[|]|]; cbn; congruence. Qed.

Lemma repr_bool_inj b b' : repr_bool b = repr_bool b' -> b = b'.
Proof. destruct b, b'; cbn; congruence. Qed.

Lemma repr_bool_last_inj b b' :
  (repr_bool b ++ "]")%string = (repr_bool b' ++ "]")%string -> b = b'.
Proof. destruct b, b'; cbn; congruence. Qed.

(** The decimal numeral of an integer has a digit, and reads back as the
    integer. *)
Lemma to_int_read_back z :
  NilZero.int_of_string (NilZero.string_of_int (Z.to_int z))
  = Some (Z.to_int z).
Proof.
  assert (E : Z.to_int z = Decimal.norm (Z.to_int z)).
  { rewrite <- DecimalZ.to_of. now rewrite DecimalZ.of_to. }
  apply NilZero.isi; rewrite E; destruct (Z.to_int z) as [d|d]; cbn.
  - intros H. injection H. apply DecimalFacts.unorm_nonnil.
  - destruct (Decimal.nzhead d); discriminate.
  - discriminate.
  - destruct (Decimal.nzhead d); discriminate.
Qed.

Lemma string_of_int_head d :
  exists c s, NilZero.string_of_int d = String c s /\ c <> "N"%char.
Proof.
  destruct d as [d|d]; cbn.
  - destruct d; cbn; eexists _, _; (split; [reflexivity|discriminate]).
  - eexists _, _. split; [reflexivity|discriminate].
Qed.

Lemma repr_int_inj p p' : repr_int p = repr_int p' -> p = p'.
Proof.
  destruct p as [z|], p' as [z'|]; cbn; intros E; auto.
  - f_equal. apply DecimalZ.to_int_inj.
    pose proof (to_int_read_back z) as R. rewrite E, to_int_read_back in R.
    now injection R.
  - destruct (string_of_int_head (Z.to_int z)) as (c & s & Hs & Hc).
    rewrite Hs in E. injection E. congruence.
  - destruct (string_of_int_head (Z.to_int z')) as (c & s & Hs & Hc).
    rewrite Hs in E. injection E. congruence.
Qed.

Lemma str_inj c1 c2 : str c1 = str c2 -> c1 = c2.
Proof.
  destruct c1 as [t d s p b r], c2 as [t' d' s' p' b' r'].
  unfold str. cbn [cfg_t cfg_d cfg_s cfg_p cfg_b cfg_r].
  cbn [String.append]. intros E. injection E as E.
  apply append_comma_inj in E; auto using no_comma_repr_component.
  destruct E as [Et E]. apply repr_component_inj in Et. injection E as E.
  apply append_comma_inj in E; auto using no_comma_repr_bool.
  destruct E as [Ed E]. apply repr_bool_inj in Ed. injection E as E.
  apply append_comma_inj in E; auto using no_comma_repr_component.
  destruct E as [Es E]. apply repr_component_inj in Es. injection E as E.
  apply append_comma_inj in E; auto using no_comma_repr_int.
  destruct E as [Ep E]. apply repr_int_inj in Ep. injection E as E.
  apply append_comma_inj in E; auto using no_comma_repr_bool.
  destruct E as [Eb E]. apply repr_bool_inj in Eb. injection E as E.
  apply repr_bool_last_inj in E. congruence.
Qed.

(** ** The grid of candidates *)

Lemma exp_smoothing_configs_run seasonal w :
  exp_smoothing_configs seasonal w
  = (Ok (length (heap w)),
     World (heap w ++ [ConfigSeq (config_grid seasonal)]) (stdout w)).
Proof.
  destruct w as [H out]. unfold exp_smoothing_configs, bind at 1.
  unfold new_config_list at 1. cbn [heap stdout]. unfold bind.
  rewrite for_each_appends with
    (f := fun t => flat_map (fun d => flat_map (fun s =>
            flat_map (fun p => flat_map (fun b =>
              flat_map (fun r => [Config t d s p b r]) flag_domain)
            flag_domain) seasonal) component_domain) flag_domain).
  - reflexivity.
  - intros t cs. apply for_each_appends. intros d cs1.
    apply for_each_appends. intros s cs2.
    apply for_each_appends. intros p cs3.
    apply for_each_appends. intros b cs4.
    apply for_each_appends. intros r cs5.
    apply config_list_append_run.
Qed.

Lemma in_component_domain c : In c component_domain.
Proof. destruct c as [[|]|]; cbn; auto. Qed.

Lemma in_flag_domain b : In b flag_domain.
Proof. destruct b; cbn; auto. Qed.

Lemma in_config_grid seasonal cfg :
  In cfg (config_grid seasonal) <-> In (cfg_p cfg) seasonal.
Proof.
  unfold config_grid. split.
  - intros H.
    repeat (apply in_flat_map in H; destruct H as (? & ? & H)).
    destruct H as [<-|[]]. assumption.
  - destruct cfg as [t d s p b r]. cbn [cfg_p]. intros Hp.
    apply in_flat_map. exists t. split; [apply in_component_domain|].
    apply in_flat_map. exists d. split; [apply in_flag_domain|].
    apply in_flat_map. exists s. split; [apply in_component_domain|].
    apply in_flat_map. exists p. split; [exact Hp|].
    apply in_flat_map. exists b. split; [apply in_flag_domain|].
    apply in_flat_map. exists r. split; [apply in_flag_domain|].
    now left.
Qed.

Lemma NoDup_flat_map {A B : Type} (f : A -> list B) (l : list A) :
  NoDup l ->
  (forall x, In x l -> NoDup (f x)) ->
  (forall x y z, In z (f x) -> In z (f y) -> x = y) ->
  NoDup (flat_map f l).
Proof.
  intros Hl Hf Hd. induction Hl as [|a l Ha Hl IH]; cbn [flat_map].
  - constructor.
  - apply NoDup_app.
    + apply Hf. now left.
    + apply IH. intros x Hx. apply Hf. now right.
    + intros z Hz Hz'. apply in_flat_map in Hz'.
      destruct Hz' as (y & Hy & Hz'). apply Ha.
      now rewrite (Hd a y z Hz Hz').
Qed.

Lemma NoDup_component_domain : NoDup component_domain.
Proof.
  repeat constructor; cbn; intuition discriminate.
Qed.

Lemma NoDup_flag_domain : NoDup flag_domain.
Proof.
  repeat constructor; cbn; intuition discriminate.
Qed.

Ltac in_grid H :=
  repeat (apply in_flat_map in H; destruct H as (? & ? & H));
  destruct H as [H|[]].

Lemma NoDup_config_grid seasonal :
  NoDup seasonal -> NoDup (config_grid seasonal).
Proof.
  intros Hs. unfold config_grid.
  apply NoDup_flat_map; [apply NoDup_component_domain| |].
  2:{ intros x y z Hx Hy. in_grid Hx. in_grid Hy. congruence. }
  intros t _. apply NoDup_flat_map; [apply NoDup_flag_domain| |].
  2:{ intros x y z Hx Hy. in_grid Hx. in_grid Hy. congruence. }
  intros d _. apply NoDup_flat_map; [apply NoDup_component_domain| |].
  2:{ intros x y z Hx Hy. in_grid Hx. in_grid Hy. congruence. }
  intros s _. apply NoDup_flat_map; [exact Hs| |].
  2:{ intros x y z Hx Hy. in_grid Hx. in_grid Hy. congruence. }
  intros p _. apply NoDup_flat_map; [apply NoDup_flag_domain| |].
  2:{ intros x y z Hx Hy. in_grid Hx. in_grid Hy. congruence. }
  intros b _. apply NoDup_flat_map; [apply NoDup_flag_domain| |].
  2:{ intros x y z Hx Hy. in_grid Hx. in_grid Hy. congruence. }
  intros r _. repeat constructor. intros [].
Qed.

Lemma NoDup_map_filter {A B : Type} (g : A -> B) (p : A -> bool) l :
  NoDup (map g l) -> NoDup (map g (filter p l)).
Proof.
  induction l as [|a l IH]; cbn [map filter]; intros H; [constructor|].
  inversion H as [|? ? Ha Hl]; subst.
  destruct (p a); cbn [map]; auto. constructor; auto.
  intros Hin. apply Ha. apply in_map_iff in Hin.
  destruct Hin as (x & Hx & Hin). apply filter_In in Hin.
  apply in_map_iff. exists x. tauto.
Qed.

Lemma NoDup_map_str cfgs : NoDup cfgs -> NoDup (map str cfgs).
Proof.
  induction 1 as [|c l Hc Hl IH]; cbn [map]; constructor; auto.
  intros Hin. apply in_map_iff in Hin. destruct Hin as (c' & E & Hin).
  apply str_inj in E. now subst c'.
Qed.

(** X8. The key [str(cfg)] identifies the configuration: two
    configurations have the same key only if they are the same. *)
Theorem str_identifies_config c1 c2 : str c1 = str c2 <-> c1 = c2.
Proof. split; [apply str_inj|now intros ->]. Qed.

(** X9. The list [exp_smoothing_configs] makes holds a configuration
    exactly when its seasonal period is one of [seasonal]: whatever the
    trend, the seasonal component and the three flags, all of their
    values are tried, and nothing else is. *)
Theorem exp_smoothing_configs_members seasonal w :
  exists models w' cs,
    exp_smoothing_configs seasonal w = (Ok models, w') /\
    nth_error (heap w') models = Some (ConfigSeq cs) /\
    forall cfg, In cfg cs <-> In (cfg_p cfg) seasonal.
Proof.
  rewrite exp_smoothing_configs_run. eexists _, _, _.
  split; [reflexivity|]. cbn [heap]. split; [apply nth_error_last1|].
  apply in_config_grid.
Qed.

(** X10. When the periods of [seasonal] are pairwise distinct, no
    configuration stands twice in the list [exp_smoothing_configs] makes,
    and no two of them have the same key. *)
Theorem exp_smoothing_configs_distinct seasonal w :
  NoDup seasonal ->
  exists models w' cs,
    exp_smoothing_configs seasonal w = (Ok models, w') /\
    nth_error (heap w') models = Some (ConfigSeq cs) /\
    NoDup cs /\ NoDup (map str cs).
Proof.
  intros Hs. rewrite exp_smoothing_configs_run. eexists _, _, _.
  split; [reflexivity|]. cbn [heap]. split; [apply nth_error_last1|].
  split; [|apply NoDup_map_str]; now apply NoDup_config_grid.
Qed.

Lemma exp_smoothing_configs_distinct_witness :
  NoDup [Some 12%Z; None] /\
  exists models w' cs,
    exp_smoothing_configs [Some 12%Z; None] sample_world = (Ok models, w') /\
    nth_error (heap w') models = Some (ConfigSeq cs) /\
    NoDup cs /\ NoDup (map str cs).
Proof.
  assert (H : NoDup [Some 12%Z; None]).
  { repeat constructor; cbn; intuition discriminate. }
  split; [exact H|].
  exact (exp_smoothing_configs_distinct [Some 12%Z; None] sample_world H).
Defined.

(** X11. When the candidates are pairwise distinct, so are the keys of
    the list [grid_search] returns: a key of the ranking names one
    candidate. *)
Theorem grid_search_keys_distinct (ES : ets_model) w data cfg_list obj cfgs
    n_test parallel sched :
  nth_error (heap w) data = Some obj ->
  nth_error (heap w) cfg_list = Some (ConfigSeq cfgs) ->
  NoDup cfgs ->
  exists ranked,
    fst (grid_search ES data cfg_list n_test parallel sched w) = Ok ranked /\
    NoDup (map fst ranked).
Proof.
  intros Hd Hc Hn. eexists. split.
  - now apply grid_search_result with (obj := obj) (cfgs := cfgs).
  - eapply Permutation_NoDup.
    + apply Permutation_map. symmetry. apply sort_by_key_perm.
    + apply NoDup_map_filter. rewrite map_map. cbn [score_of fst].
      now apply NoDup_map_str.
Qed.

Lemma grid_search_keys_distinct_witness :
  nth_error (heap sample_world) 0 = Some (FloatSeq sample_series) /\
  nth_error (heap sample_world) 1 = Some (ConfigSeq sample_configs) /\
  NoDup sample_configs /\
  exists ranked,
    fst (grid_search picky_model 0 1 2 true [[1]; [0; 2]] sample_world)
    = Ok ranked /\
    NoDup (map fst ranked).
Proof.
  assert (H1 : nth_error (heap sample_world) 0 = Some (FloatSeq sample_series))
    by reflexivity.
  assert (H2 : nth_error (heap sample_world) 1
               = Some (ConfigSeq sample_configs)) by reflexivity.
  assert (H3 : NoDup sample_configs).
  { repeat constructor; cbn; intuition discriminate. }
  split; [exact H1|]. split; [exact H2|]. split; [exact H3|].
  exact (grid_search_keys_distinct picky_model sample_world 0 1
           (FloatSeq sample_series) sample_configs 2 true [[1]; [0; 2]]
           H1 H2 H3).
Defined.

(** ** What is printed *)

Lemma quiet_ret {A} (a : A) : quiet (ret a).
Proof. now intros w. Qed.

Lemma quiet_raise {A} e : quiet (@raise A e).
Proof. now intros w. Qed.

Lemma quiet_lift {A} (r : result A) : quiet (lift r).
Proof. now intros w. Qed.

Lemma quiet_bind {A B} (m : M A) (f : A -> M B) :
  quiet m -> (forall a, quiet (f a)) -> quiet (bind m f).
Proof.
  intros Hm Hf w. unfold bind. specialize (Hm w).
  destruct (m w) as [[a|e] w1]; cbn [snd] in *; [|exact Hm].
  now rewrite Hf.
Qed.

Lemma quiet_for_each {A} (xs : list A) (body : A -> M unit) :
  (forall x, quiet (body x)) -> quiet (for_each xs body).
Proof.
  intros Hb. induction xs as [|x xs IH]; cbn [for_each].
  - apply quiet_ret.
  - apply quiet_bind; auto.
Qed.

Lemma quiet_new_list xs : quiet (new_list xs).
Proof. now intros w. Qed.

Lemma quiet_read_floats l : quiet (read_floats l).
Proof.
  intros w. unfold read_floats.
  now destruct (nth_error (heap w) l) as [[xs|cs]|].
Qed.

Lemma quiet_list_append l x : quiet (list_append l x).
Proof.
  intros w. unfold list_append.
  now destruct (nth_error (heap w) l) as [[xs|cs]|].
Qed.

Lemma quiet_index {A} (xs : list A) i : quiet (index xs i).
Proof. intros w. unfold index. now destruct (nth_error xs i). Qed.

Lemma quiet_walk_forward_validation (ES : ets_model) data n_test cfg :
  quiet (walk_forward_validation ES data n_test cfg).
Proof.
  unfold walk_forward_validation.
  apply quiet_bind; [apply quiet_new_list|]. intros p.
  apply quiet_bind.
  { unfold train_test_split. apply quiet_bind; [apply quiet_read_floats|].
    intros xs. apply quiet_ret. }
  intros [train test].
  apply quiet_bind; [apply quiet_new_list|]. intros h.
  apply quiet_bind.
  { apply quiet_for_each. intros i. unfold walk_forward_step.
    apply quiet_bind.
    { unfold exp_smoothing_forecast. destruct cfg as [t d s p0 b r].
      apply quiet_bind; [apply quiet_read_floats|]. intros xs.
      apply quiet_bind; [apply quiet_lift|]. intros yhat.
      apply quiet_index. }
    intros yhat. apply quiet_bind; [apply quiet_list_append|]. intros _.
    apply quiet_bind; [apply quiet_index|]. intros x.
    apply quiet_list_append. }
  intros _. apply quiet_bind; [|intros e; apply quiet_ret].
  unfold measure_rmse. apply quiet_bind; [apply quiet_read_floats|].
  intros xs. apply quiet_bind; [apply quiet_lift|]. intros mse.
  apply quiet_lift.
Qed.

Lemma score_model_stdout (ES : ets_model) w data n_test cfg debug :
  stdout (snd (score_model ES data n_test cfg debug w))
  = stdout w ++ match fst (walk_forward_validation ES data n_test cfg w) with
                | Ok e => [(str cfg, e)]
                | Raise _ => []
                end.
Proof.
  pose proof (quiet_walk_forward_validation ES data n_test cfg w) as Hq.
  unfold score_model, try_except, bind, print, ret.
  destruct debug;
    destruct (walk_forward_validation ES data n_test cfg w) as [[e|x] w1];
    cbn [fst snd stdout] in *; rewrite Hq; auto using app_nil_r.
Qed.

Lemma score_model_line (ES : ets_model) w data obj n_test cfg :
  nth_error (heap w) data = Some obj ->
  stdout (snd (score_model ES data n_test cfg false w))
  = stdout w ++ score_line (score_of ES obj n_test cfg).
Proof.
  intros Hd. rewrite score_model_stdout.
  rewrite walk_forward_validation_result with (obj := obj) by exact Hd.
  unfold score_line, score_of. cbn [fst snd].
  now destruct (walk_forward_error ES obj n_test cfg).
Qed.

Lemma list_comp_stdout (ES : ets_model) data obj n_test cfgs : forall w,
  nth_error (heap w) data = Some obj ->
  stdout (snd (list_comp (fun cfg => score_model ES data n_test cfg false)
                         cfgs w))
  = stdout w ++ flat_map score_line (map (score_of ES obj n_test) cfgs).
Proof.
  induction cfgs as [|cfg cfgs IH]; intros w Hw; cbn [list_comp map flat_map].
  - cbn. now rewrite app_nil_r.
  - unfold bind at 1.
    pose proof (score_model_result ES w data obj n_test cfg Hw) as Hr.
    pose proof (score_model_keeps_data ES data obj n_test w cfg Hw) as Hk.
    pose proof (score_model_line ES w data obj n_test cfg Hw) as Hl.
    destruct (score_model ES data n_test cfg false w) as [r w1].
    cbn [fst snd] in Hr, Hk, Hl. subst r.
    unfold bind at 1. specialize (IH w1 Hk).
    pose proof (list_comp_scores ES data obj n_test cfgs w1 Hk) as Hs.
    destruct (list_comp _ cfgs w1) as [rs w2]. cbn [fst snd] in IH, Hs.
    subst rs. cbn [ret snd]. rewrite IH, Hl. now rewrite <- app_assoc.
Qed.

Lemma flat_map_score_line_present (scores : list score) :
  flat_map score_line (filter (fun r => is_some (snd r)) scores)
  = flat_map score_line scores.
Proof.
  induction scores as [|r scores IH]; [reflexivity|]. cbn [filter flat_map].
  unfold score_line at 2. destruct (snd r) eqn:E; cbn [is_some flat_map].
  - unfold score_line at 1. now rewrite E, IH.
  - exact IH.
Qed.

Lemma Permutation_flat_map_lines (l l' : list score) :
  Permutation l l' ->
  Permutation (flat_map score_line l) (flat_map score_line l').
Proof.
  induction 1; cbn [flat_map]; auto.
  - now apply Permutation_app_head.
  - rewrite !app_assoc. apply Permutation_app_tail, Permutation_app_comm.
  - etransitivity; eauto.
Qed.

Lemma ranked_lines (scores : list score) :
  Permutation
    (flat_map score_line
       (sort_by_key error_of (filter (fun r => is_some (snd r)) scores)))
    (flat_map score_line scores).
Proof.
  rewrite <- (flat_map_score_line_present scores).
  apply Permutation_flat_map_lines, sort_by_key_perm.
Qed.

(** X12. [score_model] prints one progress line exactly when it returns a
    tuple that has an error, and the line holds the key and the error of
    that tuple; it prints nothing when it returns [(key, None)] or (in
    debug mode) raises. *)
Theorem score_model_prints (ES : ets_model) w data n_test cfg debug :
  stdout (snd (score_model ES data n_test cfg debug w))
  = stdout w ++ match fst (score_model ES data n_test cfg debug w) with
                | Ok r => score_line r
                | Raise _ => []
                end.
Proof.
  rewrite score_model_stdout, score_model_outcome.
  destruct (fst (walk_forward_validation ES data n_test cfg w)) as [e|x];
    [reflexivity|].
  now destruct debug.
Qed.

(** X13. A sequential [grid_search] prints the progress lines of the
    candidates that have an error, in the order of the candidate list, and
    nothing else; every score of the list it returns has been printed
    once. *)
Theorem grid_search_sequential_prints (ES : ets_model) w data cfg_list obj
    cfgs n_test sched :
  nth_error (heap w) data = Some obj ->
  nth_error (heap w) cfg_list = Some (ConfigSeq cfgs) ->
  exists scores ranked,
    Forall2 (fun cfg r => fst (score_model ES data n_test cfg false w) = Ok r)
            cfgs scores /\
    fst (grid_search ES data cfg_list n_test false sched w) = Ok ranked /\
    stdout (snd (grid_search ES data cfg_list n_test false sched w))
    = stdout w ++ flat_map score_line scores /\
    Permutation (flat_map score_line ranked) (flat_map score_line scores).
Proof.
  intros Hd Hc. exists (map (score_of ES obj n_test) cfgs). eexists.
  split; [now apply candidate_scores|].
  split; [now apply grid_search_result with (obj := obj) (cfgs := cfgs)|].
  split; [|apply ranked_lines].
  unfold grid_search, bind at 1, read_configs. rewrite Hc.
  pose proof (list_comp_stdout ES data obj n_test cfgs w Hd) as Hl.
  pose proof (list_comp_scores ES data obj n_test cfgs w Hd) as Hs.
  unfold bind at 1. destruct (list_comp _ cfgs w) as [r w1].
  cbn [fst snd] in Hl, Hs. subst r.
  unfold bind, lift, ret. rewrite list_sort_present. exact Hl.
Qed.

Lemma grid_search_sequential_prints_witness :
  nth_error (heap sample_world) 0 = Some (FloatSeq sample_series) /\
  nth_error (heap sample_world) 1 = Some (ConfigSeq sample_configs) /\
  exists scores ranked,
    Forall2 (fun cfg r =>
               fst (score_model picky_model 0 2 cfg false sample_world) = Ok r)
            sample_configs scores /\
    fst (grid_search picky_model 0 1 2 false [] sample_world) = Ok ranked /\
    stdout (snd (grid_search picky_model 0 1 2 false [] sample_world))
    = stdout sample_world ++ flat_map score_line scores /\
    Permutation (flat_map score_line ranked) (flat_map score_line scores).
Proof.
  assert (H1 : nth_error (heap sample_world) 0 = Some (FloatSeq sample_series))
    by reflexivity.
  assert (H2 : nth_error (heap sample_world) 1
               = Some (ConfigSeq sample_configs)) by reflexivity.
  split; [exact H1|]. split; [exact H2|].
  exact (grid_search_sequential_prints picky_model sample_world 0 1
           (FloatSeq sample_series) sample_configs 2 [] H1 H2).
Defined.

Lemma run_batch_stdout (ES : ets_model) data obj n_test cfgs batch : forall w,
  nth_error (heap w) data = Some obj ->
  stdout (snd (run_batch
                 (map (fun cfg => score_model ES data n_test cfg false) cfgs)
                 batch w))
  = stdout w ++ flat_map (task_line ES obj n_test cfgs) batch.
Proof.
  induction batch as [|i batch IH]; intros w Hw; cbn [run_batch flat_map].
  - cbn. now rewrite app_nil_r.
  - rewrite nth_error_map. unfold task_line at 1.
    destruct (nth_error cfgs i) as [cfg|] eqn:Hi; cbn [option_map].
    + pose proof (score_model_keeps_data ES data obj n_test w cfg Hw) as Hk.
      pose proof (score_model_line ES w data obj n_test cfg Hw) as Hl.
      destruct (score_model ES data n_test cfg false w) as [r w1].
      cbn [fst snd] in Hk, Hl. specialize (IH w1 Hk).
      destruct (run_batch _ batch w1) as [rs w2]. cbn [snd] in *.
      rewrite IH, Hl. now rewrite <- app_assoc.
    + cbn [app]. now apply IH.
Qed.

Lemma flat_map_concat {A B : Type} (f : A -> list B) (ll : list (list A)) :
  flat_map (flat_map f) ll = flat_map f (concat ll).
Proof.
  induction ll as [|l ll IH]; [reflexivity|]. cbn [flat_map concat].
  now rewrite flat_map_app, IH.
Qed.

Lemma flat_map_task_line (ES : ets_model) obj n_test cfgs :
  flat_map (task_line ES obj n_test cfgs) (seq 0 (length cfgs))
  = flat_map score_line (map (score_of ES obj n_test) cfgs).
Proof.
  rewrite !flat_map_concat_map, map_map. f_equal.
  unfold task_line.
  apply (map_nth_error_seq
           (fun o => match o with
                     | Some cfg => score_line (score_of ES obj n_test cfg)
                     | None => []
                     end) cfgs).
Qed.

Lemma Permutation_flat_map_tasks {A B : Type} (f : A -> list B) l l' :
  Permutation l l' -> Permutation (flat_map f l) (flat_map f l').
Proof.
  induction 1; cbn [flat_map]; auto.
  - now apply Permutation_app_head.
  - rewrite !app_assoc. apply Permutation_app_tail, Permutation_app_comm.
  - etransitivity; eauto.
Qed.

(** A scheduling that hands every task to one worker. *)
Lemma schedule_covers n (claimed : list nat) :
  NoDup claimed -> Forall (fun i => i < n) claimed ->
  Permutation
    (claimed ++ filter (fun i => negb (existsb (Nat.eqb i) claimed)) (seq 0 n))
    (seq 0 n).
Proof.
  intros Hn Hr. apply NoDup_Permutation.
  - apply NoDup_app; [exact Hn|apply NoDup_filter, seq_NoDup|].
    intros i Hi Hf. apply filter_In in Hf. destruct Hf as [_ Hf].
    apply negb_true_iff in Hf.
    assert (Hex : existsb (Nat.eqb i) claimed = true).
    { apply existsb_exists. exists i. split; [exact Hi|apply Nat.eqb_refl]. }
    congruence.
  - apply seq_NoDup.
  - intros i. rewrite in_app_iff, filter_In, in_seq. split.
    + intros [Hi|[Hi _]]; [|exact Hi].
      rewrite Forall_forall in Hr. specialize (Hr i Hi). lia.
    + intros Hi.
      destruct (existsb (Nat.eqb i) claimed) eqn:Hc.
      * left. apply existsb_exists in Hc. destruct Hc as (j & Hj & E).
        apply Nat.eqb_eq in E. now subst j.
      * right. auto.
Qed.

(** X14. A parallel [grid_search], under any scheduling that hands every
    task it names to one worker, prints the same progress lines as the
    sequential one, in some order: one line for each score of the list it
    returns, and nothing else. *)
Theorem grid_search_parallel_prints (ES : ets_model) w data cfg_list obj
    cfgs n_test sched :
  nth_error (heap w) data = Some obj ->
  nth_error (heap w) cfg_list = Some (ConfigSeq cfgs) ->
  NoDup (concat sched) ->
  Forall (fun i => i < length cfgs) (concat sched) ->
  exists ranked lines,
    fst (grid_search ES data cfg_list n_test true sched w) = Ok ranked /\
    stdout (snd (grid_search ES data cfg_list n_test true sched w))
    = stdout w ++ lines /\
    Permutation lines (flat_map score_line ranked).
Proof.
  intros Hd Hc Hn Hr.
  set (rest := filter (fun i => negb (existsb (Nat.eqb i) (concat sched)))
                      (seq 0 (length cfgs))).
  set (lines := flat_map (task_line ES obj n_test cfgs) (concat sched ++ rest)).
  assert (Hg : snd (grid_search ES data cfg_list n_test true sched w)
               = World (heap w) (stdout w ++ lines)).
  { unfold grid_search, bind at 1, read_configs. rewrite Hc.
    pose proof (Parallel_scores ES data obj n_test sched cfgs w Hd) as Hs.
    unfold bind at 1.
    destruct (Parallel sched _ w) as [r w1] eqn:Hp. cbn [fst] in Hs. subst r.
    unfold bind, lift, ret. rewrite list_sort_present. cbn [snd].
    unfold Parallel in Hp. rewrite length_map in Hp.
    injection Hp as _ Hw1. subst w1. f_equal. f_equal.
    rewrite flat_map_concat_map, map_map.
    erewrite map_ext.
    2:{ intros batch.
        apply (run_batch_stdout ES data obj n_test cfgs batch
                 (World (heap w) []) Hd). }
    cbn [stdout app]. rewrite <- flat_map_concat_map, flat_map_concat.
    rewrite concat_app. cbn [concat]. now rewrite app_nil_r. }
  eexists. exists lines.
  split; [now apply grid_search_result with (obj := obj) (cfgs := cfgs)|].
  rewrite Hg. cbn [stdout]. split; [reflexivity|].
  rewrite ranked_lines, <- flat_map_task_line.
  apply Permutation_flat_map_tasks. now apply schedule_covers.
Qed.

Lemma grid_search_parallel_prints_witness :
  nth_error (heap sample_world) 0 = Some (FloatSeq sample_series) /\
  nth_error (heap sample_world) 1 = Some (ConfigSeq sample_configs) /\
  NoDup (concat [[2]; [0]]) /\
  Forall (fun i => i < length sample_configs) (concat [[2]; [0]]) /\
  exists ranked lines,
    fst (grid_search picky_model 0 1 2 true [[2]; [0]] sample_world)
    = Ok ranked /\
    stdout (snd (grid_search picky_model 0 1 2 true [[2]; [0]] sample_world))
    = stdout sample_world ++ lines /\
    Permutation lines (flat_map score_line ranked).
Proof.
  assert (H1 : nth_error (heap sample_world) 0 = Some (FloatSeq sample_series))
    by reflexivity.
  assert (H2 : nth_error (heap sample_world) 1
               = Some (ConfigSeq sample_configs)) by reflexivity.
  assert (H3 : NoDup (concat [[2]; [0]])).
  { repeat constructor; cbn; intuition discriminate. }
  assert (H4 : Forall (fun i => i < length sample_configs) (concat [[2]; [0]])).
  { repeat constructor; cbn; lia. }
  split; [exact H1|]. split; [exact H2|]. split; [exact H3|].
  split; [exact H4|].
  exact (grid_search_parallel_prints picky_model sample_world 0 1
           (FloatSeq sample_series) sample_configs 2 [[2]; [0]] H1 H2 H3 H4).
Defined.

(** ** The listing of the best models *)

Lemma StronglySorted_app_inv {A : Type} (R : A -> A -> Prop) l1 : forall l2,
  StronglySorted R (l1 ++ l2) ->
  StronglySorted R l1 /\ forall a b, In a l1 -> In b l2 -> R a b.
Proof.
  induction l1 as [|x l1 IH]; intros l2 H; cbn [app] in H.
  - split; [constructor|]. intros a b [].
  - inversion H as [|? ? Hs Hx]; subst. destruct (IH l2 Hs) as [H1 H2].
    rewrite Forall_forall in Hx. split.
    + constructor; [exact H1|]. apply Forall_forall. intros y Hy.
      apply Hx, in_or_app. now left.
    + intros a b [<-|Ha] Hb; [|now apply H2].
      apply Hx, in_or_app. now right.
Qed.

Lemma slice_to_from {A : Type} (l : list A) i :
  slice_to l i ++ slice_from l i = l.
Proof. apply firstn_skipn. Qed.

(** X15. The three scores the notebook lists after a search are the
    first three of the ranking (all of it when it is shorter): each has an
    error, they stand lowest error first, and no score left out of the
    listing has a lower error than a listed one. *)
Theorem top_three_lowest (ES : ets_model) w data cfg_list obj cfgs n_test
    parallel sched ranked :
  nth_error (heap w) data = Some obj ->
  nth_error (heap w) cfg_list = Some (ConfigSeq cfgs) ->
  fst (grid_search ES data cfg_list n_test parallel sched w) = Ok ranked ->
  length (top_three ranked) = Nat.min 3 (length ranked) /\
  ranked = top_three ranked ++ slice_from ranked 3 /\
  Forall (fun r => snd r <> None) (top_three ranked) /\
  StronglySorted (key_le error_of) (top_three ranked) /\
  forall r r', In r (top_three ranked) -> In r' (slice_from ranked 3) ->
               key_le error_of r r'.
Proof.
  intros Hd Hc Hg.
  rewrite grid_search_result with (obj := obj) (cfgs := cfgs) in Hg
    by assumption.
  injection Hg as Hg.
  set (present := filter _ _) in Hg.
  assert (Hs : StronglySorted (key_le error_of) ranked).
  { subst ranked. apply sort_by_key_sorted. apply present_scores_ok. }
  assert (Hp : Forall (fun r : score => snd r <> None) ranked).
  { apply Forall_forall. intros r Hr. subst ranked.
    apply (Permutation_in _ (sort_by_key_perm _ error_of present)) in Hr.
    subst present. apply filter_In in Hr. destruct Hr as [_ Hr].
    destruct (snd r); [discriminate|discriminate Hr]. }
  pose proof (slice_to_from ranked 3) as Hsplit. fold (top_three ranked) in Hsplit.
  rewrite <- Hsplit in Hs. apply StronglySorted_app_inv in Hs.
  destruct Hs as [Hs1 Hs2].
  split; [|split; [|split; [|split]]]; auto.
  - unfold top_three, slice_to. rewrite slice_index_nonneg by lia.
    rewrite length_firstn. change (Z.to_nat 3) with 3. lia.
  - apply Forall_forall. intros r Hr. rewrite Forall_forall in Hp.
    apply Hp. rewrite <- Hsplit. apply in_or_app. now left.
Qed.

Lemma top_three_lowest_witness :
  nth_error (heap sample_world) 0 = Some (FloatSeq sample_series) /\
  nth_error (heap sample_world) 1 = Some (ConfigSeq sample_configs) /\
  exists ranked,
    fst (grid_search last_value_model 0 1 2 false [] sample_world)
    = Ok ranked /\
    length (top_three ranked) = Nat.min 3 (length ranked) /\
    ranked = top_three ranked ++ slice_from ranked 3 /\
    Forall (fun r => snd r <> None) (top_three ranked) /\
    StronglySorted (key_le error_of) (top_three ranked) /\
    forall r r', In r (top_three ranked) -> In r' (slice_from ranked 3) ->
                 key_le error_of r r'.
Proof.
  assert (H1 : nth_error (heap sample_world) 0 = Some (FloatSeq sample_series))
    by reflexivity.
  assert (H2 : nth_error (heap sample_world) 1
               = Some (ConfigSeq sample_configs)) by reflexivity.
  split; [exact H1|]. split; [exact H2|].
  eexists. split; [vm_compute; reflexivity|].
  refine (top_three_lowest last_value_model sample_world 0 1
            (FloatSeq sample_series) sample_configs 2 false [] _ H1 H2 _).
  vm_compute. reflexivity.
Defined.

(** ** The notification e-mail *)

(** X16. When one of the five environment variables is not set,
    [email_notify] stops at [sys.exit]: it raises (a [NameError], since
    the notebook does not import [sys]) before it makes a message or
    calls the gateway. *)
Theorem email_notify_incomplete_setup (message : Type) (os_environ : environ)
    EmailMessage (server : smtp_server message) msg_text calls :
  os_environ "MAIL_SENDER" = None \/ os_environ "MAIL_RECEIVER" = None \/
  os_environ "SMTP_GATEWAY" = None \/ os_environ "SMTP_USERNAME" = None \/
  os_environ "SMTP_PASSWORD" = None ->
  email_notify os_environ EmailMessage server msg_text calls
  = (Raise NameError, calls).
Proof.
  unfold email_notify, sys_exit.
  intros [H|[H|[H|[H|H]]]]; rewrite H;
    repeat match goal with
           | |- context [match ?o with Some _ => _ | None => _ end] =>
               destruct o
           end; reflexivity.
Qed.

Lemma email_notify_incomplete_setup_witness :
  (no_mail_setup "MAIL_SENDER" = None \/ no_mail_setup "MAIL_RECEIVER" = None \/
   no_mail_setup "SMTP_GATEWAY" = None \/ no_mail_setup "SMTP_USERNAME" = None \/
   no_mail_setup "SMTP_PASSWORD" = None) /\
  email_notify no_mail_setup plain_message strict_gateway "Task 1" []
  = (Raise NameError, []).
Proof.
  assert (H : no_mail_setup "MAIL_SENDER" = None \/
              no_mail_setup "MAIL_RECEIVER" = None \/
              no_mail_setup "SMTP_GATEWAY" = None \/
              no_mail_setup "SMTP_USERNAME" = None \/
              no_mail_setup "SMTP_PASSWORD" = None) by (left; reflexivity).
  split; [exact H|].
  exact (email_notify_incomplete_setup _ no_mail_setup plain_message
           strict_gateway "Task 1" [] H).
Defined.

(** X17. With the five variables set and the message made,
    [email_notify] attempts the calls [SMTP(gateway, 587)], [starttls],
    [login], [send_message], [quit] in this order and stops at the first
    that raises: every call before the last one attempted has returned,
    the outcome of the run is the outcome of that last call, and a run
    that stops early raises. So the message is handed over only after
    [starttls] and [login] have succeeded, and [quit] is not called once
    a call has failed. *)
Theorem email_notify_session (message : Type) (os_environ : environ)
    EmailMessage (server : smtp_server message) msg_text calls
    sender receiver gateway smtpuser password msg :
  os_environ "MAIL_SENDER" = Some sender ->
  os_environ "MAIL_RECEIVER" = Some receiver ->
  os_environ "SMTP_GATEWAY" = Some gateway ->
  os_environ "SMTP_USERNAME" = Some smtpuser ->
  os_environ "SMTP_PASSWORD" = Some password ->
  EmailMessage msg_text "Notification from Python ARIMA Time Series Script"
               sender receiver = Ok msg ->
  let session := [SmtpConnect gateway 587; SmtpStarttls;
                  SmtpLogin smtpuser password; SmtpSendMessage msg;
                  SmtpQuit] in
  let run := email_notify os_environ EmailMessage server msg_text calls in
  exists n c,
    nth_error session n = Some c /\
    snd run = calls ++ firstn (S n) session /\
    fst run = server (calls ++ firstn n session) c /\
    (forall i c', i < n -> nth_error session i = Some c' ->
                  server (calls ++ firstn i session) c' = Ok tt) /\
    (n < 4 -> is_raise (fst run) = true).
Proof.
  intros H1 H2 H3 H4 H5 Hm session run. subst run.
  unfold email_notify. rewrite H1, H2, H3, H4, H5.
  unfold mail_bind at 1. rewrite Hm. unfold mail_bind, smtp.
  assert (Hlt : forall i c' (P : Prop), i < 0 -> nth_error session i = Some c' -> P)
    by (intros; lia).
  destruct (server calls (SmtpConnect gateway 587)) as [[]|e0] eqn:E0.
  2:{ exists 0, (SmtpConnect gateway 587). cbn [nth_error firstn fst snd].
      rewrite app_nil_r, E0. repeat split; auto. intros; lia. }
  destruct (server (calls ++ [SmtpConnect gateway 587]) SmtpStarttls)
    as [[]|e1] eqn:E1.
  2:{ exists 1, SmtpStarttls. subst session. cbn [nth_error firstn fst snd].
      rewrite <- !app_assoc. cbn [app]. rewrite E1.
      repeat split; auto.
      intros [|i] c' Hi Hc; [|lia]. cbn in Hc. injection Hc as <-.
      cbn [firstn]. now rewrite app_nil_r. }
  destruct (server ((calls ++ [SmtpConnect gateway 587]) ++ [SmtpStarttls])
                   (SmtpLogin smtpuser password)) as [[]|e2] eqn:E2.
  2:{ exists 2, (SmtpLogin smtpuser password). subst session.
      cbn [nth_error firstn fst snd].
      rewrite <- !app_assoc in *. cbn [app] in *. rewrite E2.
      repeat split; auto.
      intros [|[|i]] c' Hi Hc; try lia; cbn in Hc; injection Hc as <-;
        cbn [firstn]; rewrite ?app_nil_r; assumption. }
  destruct (server (((calls ++ [SmtpConnect gateway 587]) ++ [SmtpStarttls])
                      ++ [SmtpLogin smtpuser password])
                   (SmtpSendMessage msg)) as [[]|e3] eqn:E3.
  2:{ exists 3, (SmtpSendMessage msg). subst session.
      cbn [nth_error firstn fst snd].
      rewrite <- !app_assoc in *. cbn [app] in *. rewrite E3.
      repeat split; auto.
      intros [|[|[|i]]] c' Hi Hc; try lia; cbn in Hc; injection Hc as <-;
        cbn [firstn]; rewrite ?app_nil_r; assumption. }
  exists 4, SmtpQuit. subst session. cbn [nth_error firstn fst snd].
  rewrite <- !app_assoc in *. cbn [app] in *.
  repeat split; auto; [|intros; lia].
  intros [|[|[|[|i]]]] c' Hi Hc; try lia; cbn in Hc; injection Hc as <-;
    cbn [firstn]; rewrite ?app_nil_r; assumption.
Qed.

Lemma email_notify_session_witness :
  mail_setup "MAIL_SENDER" = Some "births@example.org" /\
  mail_setup "MAIL_RECEIVER" = Some "analyst@example.org" /\
  mail_setup "SMTP_GATEWAY" = Some "smtp.example.org" /\
  mail_setup "SMTP_USERNAME" = Some "births" /\
  mail_setup "SMTP_PASSWORD" = Some "secret" /\
  plain_message "Task 1" "Notification from Python ARIMA Time Series Script"
                "births@example.org" "analyst@example.org"
  = Ok ("Task 1", "Notification from Python ARIMA Time Series Script",
        "births@example.org", "analyst@example.org") /\
  let session := [SmtpConnect "smtp.example.org" 587; SmtpStarttls;
                  SmtpLogin "births" "secret";
                  SmtpSendMessage
                    ("Task 1",
                     "Notification from Python ARIMA Time Series Script",
                     "births@example.org", "analyst@example.org");
                  SmtpQuit] in
  let run := email_notify mail_setup plain_message strict_gateway "Task 1" [] in
  exists n c,
    nth_error session n = Some c /\
    snd run = [] ++ firstn (S n) session /\
    fst run = strict_gateway ([] ++ firstn n session) c /\
    (forall i c', i < n -> nth_error session i = Some c' ->
                  strict_gateway ([] ++ firstn i session) c' = Ok tt) /\
    (n < 4 -> is_raise (fst run) = true).
Proof.
  repeat (split; [reflexivity|]).
  exact (email_notify_session _ mail_setup plain_message strict_gateway
           "Task 1" [] "births@example.org" "analyst@example.org"
           "smtp.example.org" "births" "secret" _
           eq_refl eq_refl eq_refl eq_refl eq_refl eq_refl).
Defined.

(** ** The search over the default grid *)

Lemma length_ranked (scores : list score) :
  length (sort_by_key error_of (filter (fun r => is_some (snd r)) scores))
  <= length scores.
Proof.
  rewrite (Permutation_length (sort_by_key_perm _ error_of _)).
  apply filter_length_le.
Qed.

(** X18. The notebook's search, [cfg_list = exp_smoothing_configs()]
    followed by [grid_search(data, cfg_list, n_test)], returns at most 72
    scores, and no two of them have the same key, whatever the data, the
    fits and the scheduling are. *)
Theorem default_search_keys (ES : ets_model) w data obj n_test parallel sched :
  nth_error (heap w) data = Some obj ->
  exists ranked,
    fst ((cfg_list <- exp_smoothing_configs default_seasonal ;;
          grid_search ES data cfg_list n_test parallel sched) w) = Ok ranked /\
    length ranked <= 72 /\
    NoDup (map fst ranked).
Proof.
  intros Hd. unfold bind at 1. rewrite exp_smoothing_configs_run.
  set (w' := World _ _).
  assert (Hd' : nth_error (heap w') data = Some obj).
  { subst w'. cbn [heap]. rewrite nth_error_app1; auto.
    apply nth_error_Some. congruence. }
  assert (Hc : nth_error (heap w') (length (heap w))
               = Some (ConfigSeq (config_grid default_seasonal))).
  { subst w'. cbn [heap]. apply nth_error_last1. }
  rewrite grid_search_result
    with (obj := obj) (cfgs := config_grid default_seasonal) by assumption.
  eexists. split; [reflexivity|]. split.
  - etransitivity; [apply length_ranked|]. rewrite length_map. reflexivity.
  - eapply Permutation_NoDup.
    + apply Permutation_map. symmetry. apply sort_by_key_perm.
    + apply NoDup_map_filter. rewrite map_map. cbn [score_of fst].
      apply NoDup_map_str, NoDup_config_grid.
      repeat constructor. intros [].
Qed.

Lemma default_search_keys_witness :
  nth_error (heap sample_world) 0 = Some (FloatSeq sample_series) /\
  exists ranked,
    fst ((cfg_list <- exp_smoothing_configs default_seasonal ;;
          grid_search picky_model 0 cfg_list 2 true [[3; 1]; [0]])
           sample_world) = Ok ranked /\
    length ranked <= 72 /\
    NoDup (map fst ranked).
Proof.
  assert (H : nth_error (heap sample_world) 0 = Some (FloatSeq sample_series))
    by reflexivity.
  split; [exact H|].
  exact (default_search_keys picky_model sample_world 0
           (FloatSeq sample_series) 2 true [[3; 1]; [0]] H).
Defined.
